(** * bedrock-pr-reviewer: the chat bot and the SOP retriever

    A shallow embedding of [src/bot.ts] and [src/sopRetriever.ts].

    Asynchronous functions run on one logical thread and every [await] is
    waited for before the next statement, so a call is modelled as a
    function from the module state to an outcome and the next state.  An
    outcome is a value or a thrown [Error].  Everything the code asks of the
    outside world (the Bedrock client, [JSON.stringify], the clock, the
    action inputs, the Pinecone client, the embedding pipeline) is a field of
    an environment record, so that each definition can be run on concrete
    inputs.  Calls that leave the process and the lines written through
    [info] and [warning] are appended to a trace kept in the state. *)

From Stdlib Require Import ZArith QArith Qround Qabs Ascii String List Lia.
From stdpp Require Import base strings list gmap pretty.

Close Scope Q_scope.
Set Warnings "-register-all".
Local Open Scope string_scope.

(** ** JavaScript values shared by the two files *)

(** A thrown value.  Every [throw] in the two files and in the libraries
    they call throws an [Error] object; [name] is ["Error"], ["TypeError"]
    and the like. *)
Record Error := mkError { name : string; message : string }.

(** [`${e}`] for an [Error]: [Error.prototype.toString]. *)
Definition errorToString (e : Error) : string :=
  match name e, message e with
  | "", m => m
  | n, "" => n
  | n, m => n +:+ ": " +:+ m
  end.

(** The outcome of a call: a value, or a thrown error. *)
Inductive Res (A : Type) : Type :=
  | Ok (a : A)
  | Throw (e : Error).
Arguments Ok {A} a.
Arguments Throw {A} e.

(** A line written through [@actions/core], or a call that leaves the
    process; [C] is the type of such calls in the file at hand. *)
Inductive Event (C : Type) : Type :=
  | Info (msg : string)
  | Warning (msg : string)
  | Call (c : C).
Arguments Info {C} msg.
Arguments Warning {C} msg.
Arguments Call {C} c.

(** The line feed of template literals. *)
Definition nl : string := String "010"%char "".

(** Truthiness of a string: only [''] is falsy. *)
Definition truthy (s : string) : bool :=
  match s with
  | "" => false
  | String _ _ => true
  end.

(** [Array.prototype.join] on strings. *)
Fixpoint join (sep : string) (l : list string) : string :=
  match l with
  | [] => ""
  | [x] => x
  | x :: l' => x +:+ sep +:+ join sep l'
  end.

(** ** Computations: state, exceptions, trace *)

Section Computation.
Context {St C : Type}.
(** How an event is appended to the trace of the state. *)
Context (record : Event C → St → St).

Definition M (A : Type) : Type := St → Res A * St.

Definition ret {A} (a : A) : M A := λ st, (Ok a, st).

Definition throw {A} (e : Error) : M A := λ st, (Throw e, st).

Definition bind {A B} (m : M A) (k : A → M B) : M B :=
  λ st, match m st with
        | (Ok a, st') => k a st'
        | (Throw e, st') => (Throw e, st')
        end.

(** [try { body } catch (e) { handler }]: the state changes made by the
    body before it threw are kept. *)
Definition tryCatch {A} (body : M A) (handler : Error → M A) : M A :=
  λ st, match body st with
        | (Ok a, st') => (Ok a, st')
        | (Throw e, st') => handler e st'
        end.

(** An outcome that is computed without touching the state. *)
Definition lift {A} (r : Res A) : M A := λ st, (r, st).

Definition get : M St := λ st, (Ok st, st).

Definition modify (f : St → St) : M unit := λ st, (Ok tt, f st).

Definition emit (ev : Event C) : M unit := modify (record ev).

Definition info (msg : string) : M unit := emit (Info msg).

Definition warning (msg : string) : M unit := emit (Warning msg).

(** A call to the outside: it is recorded, then its outcome is the
    outcome of the call. *)
Definition external {A} (c : C) (outcome : Res A) : M A :=
  λ st, (outcome, record (Call c) st).

(** A [for ... of] loop that updates one variable. *)
Fixpoint forOf {A B} (body : B → A → M B) (acc : B) (l : list A) : M B :=
  match l with
  | [] => ret acc
  | x :: l' => bind (body acc x) (λ acc', forOf body acc' l')
  end.

(** Modelled from the spec: [pRetry] of the package [p-retry], which is
    not part of the sources; the RetryExecutor runs the operation up to
    [retries + 1] times and raises the last failure when all of them
    failed.  The operation is told the number of the attempt, from 1.
    The package itself gives up at once on some errors (an [AbortError], a
    [TypeError] that is no network error); what is proved of the number of
    sends beyond its bound is stated for the other errors. *)
Fixpoint pRetryFrom {A} (operation : nat → M A) (attempt retries : nat) : M A :=
  tryCatch (operation attempt)
    (λ e, match retries with
          | O => throw e
          | S rest => pRetryFrom operation (S attempt) rest
          end).

Definition pRetry {A} (operation : nat → M A) (retries : nat) : M A :=
  pRetryFrom operation 1 retries.
End Computation.

Declare Scope comp_scope.
Delimit Scope comp_scope with comp.
Notation "x <- c1 ;; c2" := (bind c1 (λ x, c2))
  (at level 100, c1 at next level, right associativity) : comp_scope.
Notation "c1 ;;; c2" := (bind c1 (λ _, c2))
  (at level 100, right associativity) : comp_scope.

(** ** src/bot.ts *)

Module Bot.

(** A value handed to [JSON.stringify]: the [DocumentType] of the SDK (a
    JSON value, its numbers integers here, the fields of an object in the
    order they are enumerated).  Two kinds of values make [JSON.stringify]
    throw: an object that is reachable from itself, which [DocumentType]
    admits ([DCircular] stands for the reference back to an enclosing
    object), and a [bigint], which the [any] of a schema admits. *)
Inductive Doc : Type :=
  | DNull
  | DBool (b : bool)
  | DNum (n : Z)
  | DStr (s : string)
  | DArr (items : list Doc)
  | DObj (fields : list (string * Doc))
  | DCircular
  | DBigInt (n : Z).

Record Ids := mkIds {
  parentMessageId : option string;
  conversationId : option string
}.

Record JsonSchema := mkJsonSchema {
  schema_name : string;
  description : string;
  parameters : Doc
}.

(** The object [JSON.stringify(jsonSchema)] is applied to. *)
Definition schemaDoc (s : JsonSchema) : Doc :=
  DObj [("name", DStr (schema_name s));
        ("description", DStr (description s));
        ("parameters", parameters s)].

(** *** The request *)

Record ToolSpec := mkToolSpec {
  tool_name : string;
  tool_description : string;
  inputSchema : Doc
}.

Record ToolConfiguration := mkToolConfiguration { tools : list ToolSpec }.

Record InferenceConfig := mkInferenceConfig { maxTokens : Z; temperature : Z }.

Record RequestMessage := mkRequestMessage {
  req_role : string;
  req_content : list string
}.

Record ConverseCommandInput := mkConverseCommandInput {
  modelId : string;
  messages : list RequestMessage;
  inferenceConfig : InferenceConfig;
  toolConfig : option ToolConfiguration
}.

(** *** The response *)

(** [input] is taken as present: [JSON.stringify] of it is a string or a
    thrown error. *)
Record ToolUseBlock := mkToolUseBlock {
  toolUseId : option string;
  toolUse_name : option string;
  input : Doc
}.

(** [ContentBlock] is a tagged union in the SDK: a member that carries
    [text] carries no [toolUse] and conversely; the other members (image,
    document, tool result, ...) carry neither. *)
Inductive ContentBlock : Type :=
  | TextMember (text : string)
  | ToolUseMember (toolUse : ToolUseBlock)
  | OtherMember.

Record Message := mkMessage {
  role : string;
  content : option (list ContentBlock)
}.

Record ConverseOutput := mkConverseOutput { output_message : option Message }.

Record ResponseMetadata := mkResponseMetadata {
  requestId : option string;
  cfId : option string
}.

Record ConverseCommandOutput := mkConverseCommandOutput {
  output : option ConverseOutput;
  metadata : ResponseMetadata
}.

(** *** The bot and what it runs on *)

Record Options := mkOptions {
  debug : bool;
  language : string;
  bedrockRetries : nat
}.

Record BedrockOptions := mkBedrockOptions { model : string }.

(** [client.send(new ConverseCommand(params))]: the outcome of the
    [attempt]-th send of [params] within one call of [chat]. *)
Record BedrockRuntimeClient := mkClient {
  send : ConverseCommandInput → nat → Res ConverseCommandOutput
}.

Record Bot := mkBot {
  client : BedrockRuntimeClient;
  options : Options;
  bedrockOptions : BedrockOptions
}.

(** The built-ins [chat_] calls: [JSON.stringify], and [Date.now()], of
    which [Date_now k] is the value of the [k]-th reading in a call. *)
Record Runtime := mkRuntime {
  JSON_stringify : Doc → Res string;
  Date_now : nat → Z
}.

(** The only call that leaves the process. *)
Inductive Outside : Type :=
  | SendConverse (params : ConverseCommandInput) (attempt : nat).

(** The bot keeps no state between calls besides what it has written. *)
Definition Trace : Type := list (Event Outside).

Definition record (ev : Event Outside) (tr : Trace) : Trace := (tr ++ [ev])%list.

Abbreviation Task := (@M Trace).

Local Open Scope comp_scope.

(** Lines 73-107: the command parameters. *)
Definition commandParams (bot : Bot) (message : string)
    (jsonSchema : option JsonSchema) : ConverseCommandInput :=
  {| modelId := model (bedrockOptions bot);
     messages := [ {| req_role := "user"; req_content := [message] |} ];
     inferenceConfig := {| maxTokens := 4096; temperature := 0 |};
     toolConfig :=
       match jsonSchema with
       | Some s =>
           Some {| tools := [ {| tool_name := schema_name s;
                                 tool_description := description s;
                                 inputSchema := parameters s |} ] |}
       | None => None
       end |}.

(** Lines 61-121 of [chat_]: the prompt, the debug lines, the send with
    its retries and its [catch], and the timing line.  The value is the
    variable [response] when line 122 is reached. *)
Definition sendMessage (bot : Bot) (rt : Runtime) (start : Z)
    (message : string) (jsonSchema : option JsonSchema)
    : Task (option ConverseCommandOutput) :=
  let message :=
    "IMPORTANT: Entire response must be in the language with ISO code: "
    +:+ language (options bot) +:+ nl +:+ nl +:+ message in
  (if debug (options bot) then
     info record ("sending prompt: " +:+ message +:+ nl +:+ "------------") ;;;
     match jsonSchema with
     | Some s =>
         json <- lift (JSON_stringify rt (schemaDoc s)) ;;
         info record ("Using JSON schema: " +:+ json)
     | None => ret tt
     end
   else ret tt) ;;;
  response <-
    tryCatch
      (let params := commandParams bot message jsonSchema in
       r <- pRetry
              (λ attempt, external record (SendConverse params attempt)
                            (send (client bot) params attempt))
              (bedrockRetries (options bot)) ;;
       ret (Some r))
      (λ e,
        info record ("response: undefined, failed to send message to bedrock: "
                     +:+ errorToString e) ;;;
        ret None) ;;
  let end_ := Date_now rt 1 in
  info record ("bedrock sendMessage (including retries) response time: "
               +:+ pretty (end_ - start)%Z +:+ " ms") ;;;
  ret response.

(** Lines 127-139: the body of the loop over the content items. *)
Definition contentItem (rt : Runtime) (responseText : string)
    (item : ContentBlock) : Task string :=
  match item with
  | TextMember text =>
      if truthy text then ret (responseText +:+ text) else ret responseText
  | ToolUseMember toolUse =>
      tryCatch
        (lift (JSON_stringify rt (input toolUse)))
        (λ e,
          warning record ("Failed to parse tool use input as JSON: "
                          +:+ errorToString e) ;;;
          ret "")
  | OtherMember => ret responseText
  end.

(** [response?.output?.message] *)
Definition messageOf (response : option ConverseCommandOutput) : option Message :=
  match response with
  | Some r =>
      match output r with
      | Some o => output_message o
      | None => None
      end
  | None => None
  end.

(** Lines 123-142: the response text of a response, or of none. *)
Definition responseTextOf (rt : Runtime)
    (response : option ConverseCommandOutput) : Task string :=
  match messageOf response with
  | Some msg => forOf (contentItem rt) "" (default [] (content msg))
  | None => warning record "bedrock response is null" ;;; ret ""
  end.

(** Lines 146-149. *)
Definition newIds (response : option ConverseCommandOutput) : Ids :=
  match response with
  | Some r => {| parentMessageId := requestId (metadata r);
                 conversationId := cfId (metadata r) |}
  | None => {| parentMessageId := None; conversationId := None |}
  end.

Definition chat_ (bot : Bot) (rt : Runtime) (message : string)
    (jsonSchema : option JsonSchema) : Task (string * Ids) :=
  let start := Date_now rt 0 in
  if negb (truthy message) then ret ("", mkIds None None)
  else
    response <- sendMessage bot rt start message jsonSchema ;;
    responseText <- responseTextOf rt response ;;
    (if debug (options bot) then
       info record ("bedrock responses: " +:+ responseText +:+ nl +:+ "-----------")
     else ret tt) ;;;
    ret (responseText, newIds response).

Definition chat (bot : Bot) (rt : Runtime) (message : string)
    (jsonSchema : option JsonSchema) : Task (string * Ids) :=
  let res := ("", mkIds None None) in
  tryCatch
    (chat_ bot rt message jsonSchema)
    (λ e, warning record ("Failed to chat: " +:+ errorToString e) ;;; ret res).

End Bot.

(** ** src/sopRetriever.ts *)

Module SopRetriever.

(** A JavaScript number.  The code passes numbers on and prints them
    with [toFixed]; it does no arithmetic on them.  A finite number of
    magnitude below 10^21 is held by its exact rational value.  A finite
    number of magnitude 10^21 or more, which [toFixed] hands to
    [Number::toString], is held with its sign and the text
    [Number::toString] gives for its magnitude (the exponent form, as in
    [1e+21]).  The other numbers are [NaN] and the two infinities. *)
Inductive number : Type :=
  | Num (value : Q)
        (below : Qle_bool (inject_Z 1000000000000000000000) (Qabs value) = false)
  | Huge (negative : bool) (magnitude : string)
  | NaN
  | Infinity
  | NegInfinity.

(** [Record<string, any>] of a match.  The source casts [metadata.text]
    to [string]; the values of the record are modelled as strings. *)
Abbreviation Metadata := (gmap string string).

Record SOP := mkSOP {
  text : string;
  id : option string;
  score : option number;
  metadata : option Metadata
}.

(** *** Number.prototype.toFixed *)

Fixpoint zeros (n : nat) : string :=
  match n with
  | O => ""
  | S n' => String "0" (zeros n')
  end.

(** [s.slice(0, n)] and [s.slice(n)] *)
Fixpoint sliceTo (n : nat) (s : string) : string :=
  match n, s with
  | S n', String c s' => String c (sliceTo n' s')
  | _, _ => ""
  end.

Fixpoint sliceFrom (n : nat) (s : string) : string :=
  match n, s with
  | S n', String _ s' => sliceFrom n' s'
  | _, _ => s
  end.

(** The fixed-point notation of a finite number below 10^21 in magnitude,
    as ECMAScript defines it in [Number.prototype.toFixed]: [n] is the
    integer nearest to [|x| * 10^f], the larger one on a tie. *)
Definition fixedNotation (x : Q) (f : nat) : string :=
  let s := if (Qnum x <? 0)%Z then "-" else "" in
  let n := Qfloor (Qabs x * inject_Z (10 ^ Z.of_nat f) + (1 # 2))%Q in
  let m := pretty (Z.to_N n) in
  let m :=
    if (f =? 0)%nat then m
    else
      let m :=
        if (String.length m <=? f)%nat
        then zeros (f + 1 - String.length m) +:+ m
        else m in
      let k := String.length m in
      sliceTo (k - f) m +:+ "." +:+ sliceFrom (k - f) m in
  s +:+ m.

(** [x.toFixed(f)]: a number that is not finite is printed by
    [Number::toString]; so is the magnitude of a finite number from 10^21
    on, after its sign; any other number is put in fixed-point notation. *)
Definition toFixed (x : number) (f : nat) : string :=
  match x with
  | Num value _ => fixedNotation value f
  | Huge negative magnitude => (if negative then "-" else "") +:+ magnitude
  | NaN => "NaN"
  | Infinity => "Infinity"
  | NegInfinity => "-Infinity"
  end.

(** *** The embedding pipeline and the Pinecone client *)

(** What the encoder returns: an object with a [data] buffer, a plain
    array, an object with a [tolist] method, [null] or [undefined], or
    another object, which [Array.from] turns into the empty array. *)
Inductive EmbedOutput : Type :=
  | WithData (data : list number)
  | PlainArray (items : list number)
  | WithToList (tolist : list number)
  | Nullish
  | Opaque.

(** [embedder(text, {pooling: 'mean', normalize: true})] *)
Record Embedder := mkEmbedder { run : string → Res EmbedOutput }.

Record ScoredRecord := mkScoredRecord {
  match_id : string;
  match_score : option number;
  match_metadata : option Metadata
}.

Record QueryOptions := mkQueryOptions {
  vector : list number;
  topK : nat;
  includeMetadata : bool
}.

Record QueryResponse := mkQueryResponse { matches : option (list ScoredRecord) }.

Record Index := mkIndex { query : QueryOptions → Res QueryResponse }.

Record Pinecone := mkPinecone { index : string → Res Index }.

(** The three module variables, and what the module has written and
    called so far. *)
Inductive Outside : Type :=
  | LoadPipeline (task modelName : string)
  | RunEmbedder (input : string)
  | NewPinecone (apiKey : string)
  | OpenIndex (indexName : string)
  | QueryIndex (opts : QueryOptions).

Record State := mkState {
  embedder : option Embedder;
  pineconeClient : option Pinecone;
  pineconeIndex : option Index;
  trace : list (Event Outside)
}.

Definition initial : State :=
  {| embedder := None; pineconeClient := None; pineconeIndex := None; trace := [] |}.

Definition record (ev : Event Outside) (st : State) : State :=
  {| embedder := embedder st; pineconeClient := pineconeClient st;
     pineconeIndex := pineconeIndex st; trace := (trace st ++ [ev])%list |}.

Definition set_embedder (e : Embedder) (st : State) : State :=
  {| embedder := Some e; pineconeClient := pineconeClient st;
     pineconeIndex := pineconeIndex st; trace := trace st |}.

Definition set_pineconeClient (c : Pinecone) (st : State) : State :=
  {| embedder := embedder st; pineconeClient := Some c;
     pineconeIndex := pineconeIndex st; trace := trace st |}.

Definition set_pineconeIndex (i : Index) (st : State) : State :=
  {| embedder := embedder st; pineconeClient := pineconeClient st;
     pineconeIndex := Some i; trace := trace st |}.

(** What the module is given: the inputs of the action, the [pipeline]
    factory of the transformers package and the [Pinecone] constructor. *)
Record Env := mkEnv {
  getInput : string → string;
  pipeline : string → string → Res Embedder;
  newPinecone : string → Res Pinecone
}.

Abbreviation Task := (@M State).

Local Open Scope comp_scope.

(** Lines 19-30. *)
Definition initializeEmbedder (env : Env) : Task unit :=
  st <- get ;;
  match embedder st with
  | None =>
      tryCatch
        (info record "Initializing embedding model: all-MiniLM-L6-v2" ;;;
         e <- external record
                (LoadPipeline "feature-extraction" "Xenova/all-MiniLM-L6-v2")
                (pipeline env "feature-extraction" "Xenova/all-MiniLM-L6-v2") ;;
         modify (set_embedder e) ;;;
         info record "Embedding model initialized successfully")
        (λ e,
          warning record ("Failed to initialize embedding model: " +:+ message e) ;;;
          throw e)
  | Some _ => ret tt
  end.

(** [host.match(/^([^.]+)\.svc\./)]: the characters before the first dot,
    when there is at least one and [.svc.] follows them. *)
Fixpoint beforeDot (s : string) : string * string :=
  match s with
  | "" => ("", "")
  | String c s' =>
      if Ascii.eqb c "."%char then ("", s)
      else let '(p, r) := beforeDot s' in (String c p, r)
  end.

Definition hostMatch (host : string) : option string :=
  let '(p, r) := beforeDot host in
  if truthy p && String.prefix ".svc." r then Some p else None.

(** Lines 42-52. *)
Definition resolveIndexName (env : Env) (host : string) : string :=
  let indexName := getInput env "pinecone_index" in
  let indexName :=
    if negb (truthy indexName) && truthy host then
      match hostMatch host with
      | Some group => group
      | None => indexName
      end
    else indexName in
  if negb (truthy indexName) then "sop-embeddings" else indexName.

(** Lines 35-73. *)
Definition initializePinecone (env : Env) : Task unit :=
  st <- get ;;
  match pineconeClient st with
  | None =>
      let apiKey := getInput env "pinecone_api_key" in
      let host := getInput env "pinecone_host" in
      let indexName := resolveIndexName env host in
      if negb (truthy apiKey) then
        throw (mkError "Error" "PINECONE_API_KEY environment variable is not set")
      else
        tryCatch
          (info record "Initializing Pinecone client" ;;;
           c <- external record (NewPinecone apiKey) (newPinecone env apiKey) ;;
           modify (set_pineconeClient c) ;;;
           info record ("Connecting to Pinecone index: " +:+ indexName) ;;;
           i <- external record (OpenIndex indexName) (index c indexName) ;;
           modify (set_pineconeIndex i) ;;;
           info record "Pinecone client initialized successfully")
          (λ e,
            warning record ("Failed to initialize Pinecone client: " +:+ message e) ;;;
            throw e)
  | Some _ => ret tt
  end.

(** Lines 91-106: the output of the encoder as an array of numbers. *)
Definition vectorOf (output : EmbedOutput) : Res (list number) :=
  match output with
  | WithData data => Ok data
  | PlainArray items => Ok items
  | WithToList l => Ok l
  | Nullish =>
      Throw (mkError "TypeError" "Cannot read properties of undefined (reading 'data')")
  | Opaque => Ok []
  end.

(** Lines 79-119. *)
Definition embedText (env : Env) (text : string) : Task (list number) :=
  tryCatch
    (initializeEmbedder env ;;;
     st <- get ;;
     match embedder st with
     | None => throw (mkError "Error" "Embedder not initialized")
     | Some e =>
         output <- external record (RunEmbedder text) (run e text) ;;
         vector <- lift (vectorOf output) ;;
         (if negb (length vector =? 384)%nat then
            warning record ("Expected 384-dimensional vector, got "
                            +:+ pretty (length vector) +:+ " dimensions")
          else ret tt) ;;;
         ret vector
     end)
    (λ e, warning record ("Failed to embed text: " +:+ message e) ;;; throw e).

(** Lines 153-161: the SOP of a match. *)
Definition sopOfMatch (m : ScoredRecord) : SOP :=
  {| text :=
       match match_metadata m with
       | Some md =>
           match md !! "text" with
           | Some t => if truthy t then t else ""
           | None => ""
           end
       | None => ""
       end;
     id := Some (match_id m);
     score := match_score m;
     metadata := match_metadata m |}.

(** [s.score?.toFixed(3)] inside [join]: an [undefined] element is joined
    as the empty string. *)
Definition scoreText (s : SOP) : string :=
  match score s with
  | Some x => toFixed x 3
  | None => ""
  end.

(** Lines 125-173. *)
Definition getRelevantSops (env : Env) (diffChunk : string) : Task (list SOP) :=
  tryCatch
    (initializePinecone env ;;;
     st <- get ;;
     match pineconeIndex st with
     | None =>
         warning record "Pinecone index not initialized, skipping SOP retrieval" ;;;
         ret []
     | Some pineconeIndex =>
         info record ("Embedding diff chunk (" +:+ pretty (String.length diffChunk)
                      +:+ " characters)") ;;;
         vector <- embedText env diffChunk ;;
         info record "Querying Pinecone for relevant SOPs" ;;;
         let opts := {| vector := vector; topK := 3; includeMetadata := true |} in
         queryResponse <- external record (QueryIndex opts) (query pineconeIndex opts) ;;
         match matches queryResponse with
         | None | Some [] =>
             info record "No relevant SOPs found for this diff chunk" ;;;
             ret []
         | Some ms =>
             let sops := map sopOfMatch ms in
             info record ("Retrieved " +:+ pretty (length sops)
                          +:+ " relevant SOP(s) for diff chunk (scores: "
                          +:+ join ", " (map scoreText sops) +:+ ")") ;;;
             ret sops
         end
     end)
    (λ e,
      warning record ("Failed to retrieve relevant SOPs: " +:+ message e) ;;;
      ret []).

(** Line 185 and 187: one entry of the block. *)
Definition sopEntry (index : nat) (sop : SOP) : string :=
  "### Relevant SOP " +:+ pretty (index + 1)%nat
  +:+ match id sop with
      | Some i => if truthy i then " (ID: " +:+ i +:+ ")" else ""
      | None => ""
      end
  +:+ match score sop with
      | Some x => " (relevance: " +:+ toFixed x 3 +:+ ")"
      | None => ""
      end
  +:+ nl +:+ nl +:+ text sop.

(** Lines 178-196. *)
Definition formatSopsForPrompt (sops : list SOP) : string :=
  if (length sops =? 0)%nat then ""
  else
    let sopTexts := join (nl +:+ nl) (imap sopEntry sops) in
    nl +:+ "<relevant_sops>" +:+ nl +:+ sopTexts +:+ nl +:+ "</relevant_sops>" +:+ nl.

End SopRetriever.

(** ** Concrete bots for the examples *)

Module BotExamples.
Import Bot.

(** [JSON.stringify] on a [Doc], for the examples. *)
Definition dquote : string := String "034"%char "".

Definition hexDigit (n : N) : string :=
  match n with
  | 0 => "0" | 1 => "1" | 2 => "2" | 3 => "3" | 4 => "4" | 5 => "5"
  | 6 => "6" | 7 => "7" | 8 => "8" | 9 => "9" | 10 => "a" | 11 => "b"
  | 12 => "c" | 13 => "d" | 14 => "e" | _ => "f"
  end%N.

Definition escapeChar (c : ascii) : string :=
  let n := N_of_ascii c in
  if (n =? 34)%N then "\" +:+ dquote
  else if (n =? 92)%N then "\\"
  else if (n =? 8)%N then "\b"
  else if (n =? 12)%N then "\f"
  else if (n =? 10)%N then "\n"
  else if (n =? 13)%N then "\r"
  else if (n =? 9)%N then "\t"
  else if (n <? 32)%N then "\u00" +:+ hexDigit (n / 16) +:+ hexDigit (n mod 16)
  else String c "".

Fixpoint escape (s : string) : string :=
  match s with
  | "" => ""
  | String c s' => escapeChar c +:+ escape s'
  end.

Definition quoteJSON (s : string) : string := dquote +:+ escape s +:+ dquote.

Fixpoint stringify (d : Doc) : Res string :=
  match d with
  | DNull => Ok "null"
  | DBool true => Ok "true"
  | DBool false => Ok "false"
  | DNum n => Ok (pretty n)
  | DStr s => Ok (quoteJSON s)
  | DCircular => Throw (mkError "TypeError" "Converting circular structure to JSON")
  | DBigInt _ => Throw (mkError "TypeError" "Do not know how to serialize a BigInt")
  | DArr items =>
      let elements :=
        (fix elements (l : list Doc) : Res (list string) :=
           match l with
           | [] => Ok []
           | x :: l' =>
               match stringify x with
               | Ok sx =>
                   match elements l' with
                   | Ok rest => Ok (sx :: rest)
                   | Throw e => Throw e
                   end
               | Throw e => Throw e
               end
           end) in
      match elements items with
      | Ok parts => Ok ("[" +:+ join "," parts +:+ "]")
      | Throw e => Throw e
      end
  | DObj fields =>
      let members :=
        (fix members (l : list (string * Doc)) : Res (list string) :=
           match l with
           | [] => Ok []
           | (k, x) :: l' =>
               match stringify x with
               | Ok sx =>
                   match members l' with
                   | Ok rest => Ok ((quoteJSON k +:+ ":" +:+ sx) :: rest)
                   | Throw e => Throw e
                   end
               | Throw e => Throw e
               end
           end) in
      match members fields with
      | Ok parts => Ok ("{" +:+ join "," parts +:+ "}")
      | Throw e => Throw e
      end
  end.

(** The clock reads 1000 and then 1250. *)
Definition runtime : Runtime :=
  {| JSON_stringify := stringify;
     Date_now := λ k, match k with O => 1000%Z | _ => 1250%Z end |}.

Definition response (items : list ContentBlock) : ConverseCommandOutput :=
  {| output := Some {| output_message :=
                         Some {| role := "assistant"; content := Some items |} |};
     metadata := {| requestId := Some "req-1"; cfId := None |} |}.

Definition serviceDown : Error := mkError "Error" "service unavailable".

(** A service that answers every send with the same content. *)
Definition answering (items : list ContentBlock) : BedrockRuntimeClient :=
  {| send := λ _ _, Ok (response items) |}.

(** A service that fails on every send. *)
Definition down : BedrockRuntimeClient := {| send := λ _ _, Throw serviceDown |}.

(** A service that fails on the first two sends and answers the third. *)
Definition flaky (items : list ContentBlock) : BedrockRuntimeClient :=
  {| send := λ _ attempt,
       if (attempt <=? 2)%nat then Throw serviceDown else Ok (response items) |}.

Definition botOf (c : BedrockRuntimeClient) (verbose : bool) (retries : nat) : Bot :=
  {| client := c;
     options := {| debug := verbose; language := "en-US"; bedrockRetries := retries |};
     bedrockOptions := {| model := "anthropic.claude-3-sonnet" |} |}.

Definition tool (d : Doc) : ContentBlock :=
  ToolUseMember {| toolUseId := Some "t1"; toolUse_name := Some "review"; input := d |}.

(** A schema that serializes, and one whose parameters hold a [bigint]. *)
Definition schema : JsonSchema :=
  {| schema_name := "review"; description := "a review";
     parameters := DObj [("type", DStr "object")] |}.

Definition bigSchema : JsonSchema :=
  {| schema_name := "review"; description := "a review";
     parameters := DObj [("maximum", DBigInt 9007199254740993)] |}.

(** A tool input that contains itself. *)
Definition circularInput : Doc := DObj [("self", DCircular)].

End BotExamples.

(** ** Concrete retrievers for the examples *)

Module SopExamples.
Import SopRetriever.

(** The inputs of the action. *)
Definition inputs (apiKey host indexName : string) (name : string) : string :=
  if String.eqb name "pinecone_api_key" then apiKey
  else if String.eqb name "pinecone_host" then host
  else if String.eqb name "pinecone_index" then indexName
  else "".

(** An encoder that returns a buffer of 384 numbers. *)
Definition encoder : Embedder :=
  {| run := λ _, Ok (WithData (replicate 384 (Num (1 # 20) eq_refl))) |}.

Definition candidate (name : string) (s : number) (body : string) : ScoredRecord :=
  {| match_id := name; match_score := Some s;
     match_metadata := Some {[ "text" := body ]} |}.

(** A seeded index: five candidates, by descending score. *)
Definition candidates : list ScoredRecord :=
  [ candidate "sop-7" (Num (93 # 100) eq_refl) "Check every pointer before use.";
    candidate "sop-2" (Num (81 # 100) eq_refl) "Log the request identifier.";
    candidate "sop-9" (Num (64 # 100) eq_refl) "Prefer early returns.";
    candidate "sop-4" (Num (40 # 100) eq_refl) "Name constants.";
    candidate "sop-1" (Num (12 # 100) eq_refl) "Keep functions short." ].

(** An index that answers a query with its [topK] best candidates. *)
Definition seeded (stored : list ScoredRecord) : Index :=
  {| query := λ opts, Ok {| matches := Some (take (topK opts) stored) |} |}.

Definition unreachable : Error := mkError "Error" "connection refused".

(** An index that cannot be reached. *)
Definition offline : Index := {| query := λ _, Throw unreachable |}.

Definition clientOf (i : Index) : Pinecone := {| index := λ _, Ok i |}.

Definition host : string := "sop-embeddings-2vib48a.svc.aped-4627-b74a.pinecone.io".

(** A deployment where everything works. *)
Definition healthy : Env :=
  {| getInput := inputs "pc-key" host "";
     pipeline := λ _ _, Ok encoder;
     newPinecone := λ _, Ok (clientOf (seeded candidates)) |}.

(** The same deployment without the credential. *)
Definition noCredential : Env :=
  {| getInput := inputs "" host "";
     pipeline := λ _ _, Ok encoder;
     newPinecone := λ _, Ok (clientOf (seeded candidates)) |}.

Definition modelMissing : Error := mkError "Error" "could not load the model".

(** A deployment whose encoder cannot be built. *)
Definition noEncoder : Env :=
  {| getInput := inputs "pc-key" host "";
     pipeline := λ _ _, Throw modelMissing;
     newPinecone := λ _, Ok (clientOf (seeded candidates)) |}.

(** A deployment whose index cannot be reached. *)
Definition noIndex : Env :=
  {| getInput := inputs "pc-key" host "";
     pipeline := λ _ _, Ok encoder;
     newPinecone := λ _, Ok (clientOf offline) |}.

(** The state after the client was built and [index] threw. *)
Definition halfInitialized : State :=
  {| embedder := None; pineconeClient := Some (clientOf offline);
     pineconeIndex := None; trace := [] |}.

(** An SOP whose id is the empty string. *)
Definition blankId : SOP := {| text := "t"; id := Some ""; score := None; metadata := None |}.

(** SOPs whose scores [toFixed] does not put in fixed-point notation. *)
Definition scored (x : number) : SOP :=
  {| text := "t"; id := None; score := Some x; metadata := None |}.

(** An index that answers every query with all it stores, whatever
    [topK] is, and a deployment on it. *)
Definition generous (stored : list ScoredRecord) : Index :=
  {| query := λ _, Ok {| matches := Some stored |} |}.

Definition unbounded : Env :=
  {| getInput := inputs "pc-key" host "";
     pipeline := λ _ _, Ok encoder;
     newPinecone := λ _, Ok (clientOf (generous candidates)) |}.

End SopExamples.

(** ** Notions the properties are stated with *)

(** The in-order concatenation of text fragments. *)
Definition concatenation (fragments : list string) : string :=
  foldr String.append "" fragments.

Section Notions.
Import SopRetriever.

(** The contract of the vector index: a query returns at most [topK]
    matches. *)
Definition honoursTopK (i : Index) : Prop :=
  ∀ opts resp ms,
    query i opts = Ok resp → matches resp = Some ms → (length ms ≤ topK opts)%nat.

(** Every index a call can reach honours the contract: the one already
    connected, and any the Pinecone client hands out. *)
Definition indexesHonourTopK (env : Env) (st : State) : Prop :=
  (∀ i, pineconeIndex st = Some i → honoursTopK i)
  ∧ (∀ apiKey c indexName i,
       newPinecone env apiKey = Ok c → index c indexName = Ok i → honoursTopK i).

(** The mapping of a match in the words of the specification:
    [{text: metadata.text or "", id: match.id, score: match.score,
      metadata: match.metadata}]. *)
Definition sopImage (m : ScoredRecord) : SOP :=
  {| text := default "" (match_metadata m ≫= (λ md : Metadata, md !! "text"));
     id := Some (match_id m);
     score := match_score m;
     metadata := match_metadata m |}.

(** The query [getRelevantSops] sends for a vector. *)
Definition topThree (v : list number) : QueryOptions :=
  {| vector := v; topK := 3; includeMetadata := true |}.

(** A step of a retrieval fails: the initialization of the index client
    throws, or it leaves no index handle, or the embedding throws, or the
    query of the index throws. *)
Inductive RetrievalFails (env : Env) (diffChunk : string) (st : State) : Prop :=
  | InitializationFails (e : Error) (st1 : State) :
      initializePinecone env st = (Throw e, st1) →
      RetrievalFails env diffChunk st
  | IndexUnavailable (st1 : State) :
      initializePinecone env st = (Ok tt, st1) →
      pineconeIndex st1 = None →
      RetrievalFails env diffChunk st
  | EmbeddingFails (st1 st2 : State) (i : Index) (e : Error) :
      initializePinecone env st = (Ok tt, st1) →
      pineconeIndex st1 = Some i →
      embedText env diffChunk
        (record (Info ("Embedding diff chunk (" +:+ pretty (String.length diffChunk)
                       +:+ " characters)")) st1) = (Throw e, st2) →
      RetrievalFails env diffChunk st
  | QueryFails (st1 st2 : State) (i : Index) (v : list number) (e : Error) :
      initializePinecone env st = (Ok tt, st1) →
      pineconeIndex st1 = Some i →
      embedText env diffChunk
        (record (Info ("Embedding diff chunk (" +:+ pretty (String.length diffChunk)
                       +:+ " characters)")) st1) = (Ok v, st2) →
      query i (topThree v) = Throw e →
      RetrievalFails env diffChunk st.

(** How many times the construction of the encoder was attempted. *)
Definition isConstruction (ev : Event Outside) : bool :=
  match ev with
  | Call (LoadPipeline _ _) => true
  | _ => false
  end.

Definition constructions (tr : list (Event Outside)) : nat :=
  length (List.filter isConstruction tr).

Definition isDigit (c : ascii) : bool :=
  (48 <=? nat_of_ascii c)%nat && (nat_of_ascii c <=? 57)%nat.

Fixpoint allDigits (s : string) : bool :=
  match s with
  | "" => true
  | String c s' => isDigit c && allDigits s'
  end.

(** A decimal numeral with exactly three digits after the point. *)
Definition ThreeDecimals (t : string) : Prop :=
  ∃ sign whole d1 d2 d3,
    t = sign +:+ whole +:+ "." +:+ String d1 (String d2 (String d3 ""))
    ∧ (sign = "" ∨ sign = "-")
    ∧ whole ≠ "" ∧ allDigits whole = true
    ∧ isDigit d1 = true ∧ isDigit d2 = true ∧ isDigit d3 = true.

(** The suffix [(ID: ...)] of a heading: exactly when the SOP has an id
    that is not the empty string. *)
Definition IdSuffix (sop : SOP) (suffix : string) : Prop :=
  match id sop with
  | Some i => if decide (i = "") then suffix = "" else suffix = " (ID: " +:+ i +:+ ")"
  | None => suffix = ""
  end.

(** The same for the id, read as stated: a suffix exactly when the SOP
    has an id at all. *)
Definition IdSuffixAsStated (sop : SOP) (suffix : string) : Prop :=
  match id sop with
  | Some i => suffix = " (ID: " +:+ i +:+ ")"
  | None => suffix = ""
  end.

(** A finite number of magnitude below 10^21. *)
Definition inFixedRange (x : number) : bool :=
  match x with
  | Num _ _ => true
  | _ => false
  end.

(** [(relevance: ...)] with [score.toFixed(3)] exactly when the SOP has a
    score; three decimal places when that score is a finite number of
    magnitude below 10^21. *)
Definition RelevanceSuffix (sop : SOP) (suffix : string) : Prop :=
  match score sop with
  | Some x =>
      suffix = " (relevance: " +:+ toFixed x 3 +:+ ")"
      ∧ (inFixedRange x = true → ThreeDecimals (toFixed x 3))
  | None => suffix = ""
  end.
End Notions.

(** ** Notions for the further properties of the chat bot *)

Section BotNotions.
Import Bot.

(** The prompt [chat_] sends for a message (line 63). *)
Definition promptOf (bot : Bot) (message : string) : string :=
  "IMPORTANT: Entire response must be in the language with ISO code: "
  +:+ language (options bot) +:+ nl +:+ nl +:+ message.

(** The sends recorded in a trace, oldest first. *)
Definition sendsOf (tr : Trace) : list (ConverseCommandInput * nat) :=
  flat_map (λ ev, match ev with
                  | Call (SendConverse params attempt) => [(params, attempt)]
                  | _ => []
                  end) tr.

(** [count] sends of the same request, numbered from [first]. *)
Definition attempts (params : ConverseCommandInput) (first count : nat)
    : list (ConverseCommandInput * nat) :=
  map (λ attempt, (params, attempt)) (seq first count).

(** The debug line for the schema can be written: with [debug] on and a
    schema given, the schema serializes. *)
Definition schemaLineWritable (bot : Bot) (rt : Runtime)
    (jsonSchema : option JsonSchema) : Prop :=
  ∀ s, debug (options bot) = true → jsonSchema = Some s →
       ∃ json, JSON_stringify rt (schemaDoc s) = Ok json.

(** An error after which [p-retry] tries again while the budget lasts: the
    package gives up at once on an [AbortError] and on a [TypeError] that
    is no network error. *)
Definition retriedByPRetry (e : Error) : Prop :=
  name e ≠ "TypeError" ∧ name e ≠ "AbortError".

(** The text fragments of the text items, in order. *)
Fixpoint fragments (items : list ContentBlock) : list string :=
  match items with
  | [] => []
  | TextMember text :: rest => text :: fragments rest
  | _ :: rest => fragments rest
  end.

Definition isToolUse (item : ContentBlock) : bool :=
  match item with
  | ToolUseMember _ => true
  | _ => false
  end.

(** What a tool-call item leaves in [responseText]. *)
Definition serialized (rt : Runtime) (toolUse : ToolUseBlock) : string :=
  match JSON_stringify rt (input toolUse) with
  | Ok s => s
  | Throw _ => ""
  end.
(** A response that carries identifiers and no message, and a service
    that answers every send with a given response. *)
Definition bareResponse : ConverseCommandOutput :=
  {| output := Some {| output_message := None |};
     metadata := {| requestId := Some "req-2"; cfId := Some "cf-2" |} |}.

Definition replying (r : ConverseCommandOutput) : BedrockRuntimeClient :=
  {| send := λ _ _, Ok r |}.
End BotNotions.

(** ** Notions for the further properties of the SOP retriever *)

Section RetrieverNotions.
Import SopRetriever.

(** The calls to the outside recorded in a trace, oldest first. *)
Definition callsOf (tr : list (Event Outside)) : list Outside :=
  flat_map (λ ev, match ev with
                  | Call c => [c]
                  | _ => []
                  end) tr.

Definition isQuery (c : Outside) : bool :=
  match c with
  | QueryIndex _ => true
  | _ => false
  end.

(** A string without a dot. *)
Fixpoint dotless (s : string) : bool :=
  match s with
  | "" => true
  | String c s' => negb (Ascii.eqb c "."%char) && dotless s'
  end.

(** The client was constructed and there is no index handle: the state
    [index()] leaves when it throws. *)
Definition disabled (st : State) : Prop :=
  pineconeClient st ≠ None ∧ pineconeIndex st = None.
(** The warning about the dimension of a vector, when there is one. *)
Definition dimensionWarning (v : list number) : list (Event Outside) :=
  if (length v =? 384)%nat then []
  else [Warning ("Expected 384-dimensional vector, got " +:+ pretty (length v)
                 +:+ " dimensions")].

(** An encoder that returns a plain array of three numbers. *)
Definition shortEncoder : Embedder :=
  {| run := λ _, Ok (PlainArray [Num (1 # 2) eq_refl; Num (1 # 2) eq_refl;
                                 Num (1 # 2) eq_refl]) |}.

(** A client whose [index] throws. *)
Definition noSuchIndex : Error := mkError "Error" "index not found".

Definition brokenClient : Pinecone := {| index := λ _, Throw noSuchIndex |}.
End RetrieverNotions.

(** * Properties *)

(** ** Computations *)

(** Unfolds the operations of a computation, so that a run is a cascade of
    matches on the outcomes of the calls to the outside. *)
Ltac run :=
  unfold tryCatch, bind, get, info, warning, emit, modify, external, throw, lift, ret.

Section ComputationFacts.
Context {St C : Type} (record : Event C → St → St).

Lemma forOf_app {A B} (body : B → A → @M St B) (l1 l2 : list A) (acc : B) (st : St) :
  forOf body acc (l1 ++ l2)%list st
  = bind (forOf body acc l1) (λ acc', forOf body acc' l2) st.
Proof.
  unfold bind. revert acc st. induction l1 as [|x l1 IH]; intros acc st; simpl.
  - reflexivity.
  - unfold bind. destruct (body acc x st) as [[acc'|e] st']; [|reflexivity].
    apply IH.
Qed.

(** A loop whose body never throws never throws. *)
Lemma forOf_total {A B} (body : B → A → @M St B) :
  (∀ acc x st, ∃ acc' st', body acc x st = (Ok acc', st')) →
  ∀ l acc st, ∃ acc' st', forOf body acc l st = (Ok acc', st').
Proof.
  intros Hbody l. induction l as [|x l IH]; intros acc st; simpl.
  - eexists _, _. reflexivity.
  - unfold bind. destruct (Hbody acc x st) as (acc1 & st1 & ->). apply IH.
Qed.

(** Retrying an operation whose every attempt fails ends in a throw. *)
Lemma pRetryFrom_exhausted {A} (operation : nat → @M St A) (retries : nat) :
  (∀ attempt st, ∃ e st', operation attempt st = (Throw e, st')) →
  ∀ attempt st, ∃ e st', pRetryFrom operation attempt retries st = (Throw e, st').
Proof.
  intros Hop. induction retries as [|n IH]; intros attempt st; simpl; unfold tryCatch.
  - destruct (Hop attempt st) as (e & st' & ->). eexists _, _. reflexivity.
  - destruct (Hop attempt st) as (e & st' & ->). apply IH.
Qed.
End ComputationFacts.

(** ** Strings *)

Section StringFacts.
Lemma append_cons (c : ascii) (s1 s2 : string) :
  String c s1 +:+ s2 = String c (s1 +:+ s2).
Proof. reflexivity. Qed.

Lemma append_empty_r (s : string) : s +:+ "" = s.
Proof.
  induction s as [|c s IH]; [reflexivity|]. by rewrite append_cons, IH.
Qed.

Lemma append_assoc (s1 s2 s3 : string) : (s1 +:+ s2) +:+ s3 = s1 +:+ (s2 +:+ s3).
Proof.
  induction s1 as [|c s1 IH]; [reflexivity|]. by rewrite !append_cons, IH.
Qed.

Lemma length_append (s1 s2 : string) :
  String.length (s1 +:+ s2) = (String.length s1 + String.length s2)%nat.
Proof.
  induction s1 as [|c s1 IH]; [reflexivity|].
  rewrite append_cons. cbn [String.length]. by rewrite IH.
Qed.
End StringFacts.

(** ** Decimal numerals *)

Section NumeralFacts.
Import SopRetriever.

Lemma pretty_N_char_digit (x : N) : isDigit (pretty_N_char x) = true.
Proof.
  destruct x as [|p]; [reflexivity|].
  repeat (destruct p as [p|p|]; try reflexivity).
Qed.

Lemma pretty_N_go_digits (x : N) (s : string) :
  allDigits s = true →
  allDigits (pretty_N_go x s) = true
  ∧ (String.length s ≤ String.length (pretty_N_go x s))%nat.
Proof.
  revert s. induction (N.lt_wf_0 x) as [x _ IH]; intros s Hs.
  destruct (decide (x = 0)%N) as [->|Hx].
  - rewrite pretty_N_go_0. split; [done|lia].
  - rewrite pretty_N_go_step by lia.
    destruct (IH (x `div` 10)%N) with (s := String (pretty_N_char (x `mod` 10)) s)
      as [Hd Hl].
    + apply N.div_lt; lia.
    + cbn [allDigits]. by rewrite pretty_N_char_digit, Hs.
    + split; [done|]. cbn [String.length] in Hl. lia.
Qed.

(** The decimal numeral of a natural number: digits, and at least one. *)
Lemma pretty_N_digits (x : N) :
  allDigits (pretty x) = true ∧ (1 ≤ String.length (pretty x))%nat.
Proof.
  unfold pretty, pretty_N. destruct (decide (x = 0)%N) as [->|Hx].
  - split; [reflexivity|simpl; lia].
  - rewrite pretty_N_go_step by lia.
    destruct (pretty_N_go_digits (x `div` 10)%N (String (pretty_N_char (x `mod` 10)) ""))
      as [Hd Hl].
    + cbn [allDigits]. by rewrite pretty_N_char_digit.
    + split; [done|]. cbn [String.length] in Hl. lia.
Qed.

Lemma allDigits_append (s1 s2 : string) :
  allDigits (s1 +:+ s2) = allDigits s1 && allDigits s2.
Proof.
  induction s1 as [|c s1 IH]; [reflexivity|].
  rewrite append_cons. cbn [allDigits]. rewrite IH. by rewrite andb_assoc.
Qed.

Lemma zeros_digits (n : nat) : allDigits (zeros n) = true.
Proof. induction n as [|n IH]; [reflexivity|]. cbn [zeros allDigits]. by rewrite IH. Qed.

Lemma zeros_length (n : nat) : String.length (zeros n) = n.
Proof. induction n as [|n IH]; [reflexivity|]. cbn [zeros String.length]. by rewrite IH. Qed.

Lemma slice_append (n : nat) (s : string) : sliceTo n s +:+ sliceFrom n s = s.
Proof.
  revert s. induction n as [|n IH]; intros [|c s]; try reflexivity.
  cbn [sliceTo sliceFrom]. by rewrite append_cons, IH.
Qed.

Lemma sliceTo_length (n : nat) (s : string) :
  String.length (sliceTo n s) = (n `min` String.length s)%nat.
Proof.
  revert s. induction n as [|n IH]; intros [|c s]; try reflexivity.
  cbn [sliceTo String.length]. rewrite IH. lia.
Qed.

Lemma sliceFrom_length (n : nat) (s : string) :
  String.length (sliceFrom n s) = (String.length s - n)%nat.
Proof.
  revert s. induction n as [|n IH]; intros [|c s]; try reflexivity.
  cbn [sliceFrom String.length]. by rewrite IH.
Qed.

Lemma slice_digits (n : nat) (s : string) :
  allDigits s = true → allDigits (sliceTo n s) = true ∧ allDigits (sliceFrom n s) = true.
Proof.
  intros Hs. rewrite <- (slice_append n s), allDigits_append in Hs.
  by apply andb_true_iff in Hs.
Qed.

(** The fixed-point notation with three digits has exactly three decimal
    places. *)
Lemma fixedNotation_three_decimals (x : Q) : ThreeDecimals (fixedNotation x 3).
Proof.
  unfold fixedNotation.
  set (n := Qfloor _). set (m := pretty (Z.to_N n)).
  destruct (pretty_N_digits (Z.to_N n)) as [Hd Hl]. fold m in Hd, Hl.
  cbn [Nat.eqb].
  set (m' := if (String.length m <=? 3)%nat then zeros (3 + 1 - String.length m) +:+ m else m).
  assert (Hd' : allDigits m' = true).
  { unfold m'. destruct (String.length m <=? 3)%nat; [|done].
    by rewrite allDigits_append, zeros_digits, Hd. }
  assert (Hl' : (4 ≤ String.length m')%nat).
  { unfold m'. destruct (Nat.leb_spec (String.length m) 3).
    - rewrite length_append, zeros_length. lia.
    - lia. }
  destruct (slice_digits (String.length m' - 3) m' Hd') as [Hw Hf].
  pose proof (sliceTo_length (String.length m' - 3) m') as Hwl.
  pose proof (sliceFrom_length (String.length m' - 3) m') as Hfl.
  destruct (sliceFrom (String.length m' - 3) m') as [|d1 [|d2 [|d3 [|d4 rest]]]] eqn:Hfrac;
    cbn [String.length] in Hfl; try lia.
  cbn [allDigits] in Hf. rewrite andb_true_r in Hf.
  apply andb_true_iff in Hf as [H1 Hf]. apply andb_true_iff in Hf as [H2 H3].
  exists (if (Qnum x <? 0)%Z then "-" else ""), (sliceTo (String.length m' - 3) m'), d1, d2, d3.
  repeat split; try done.
  - destruct (Qnum x <? 0)%Z; auto.
  - intros Hempty. rewrite Hempty in Hwl. cbn [String.length] in Hwl. lia.
Qed.

(** [x.toFixed(3)] has exactly three decimal places when [x] is a finite
    number of magnitude below 10^21. *)
Lemma toFixed_three_decimals (x : number) :
  inFixedRange x = true → ThreeDecimals (toFixed x 3).
Proof.
  destruct x as [value below| | | |]; try discriminate.
  intros _. apply fixedNotation_three_decimals.
Qed.
End NumeralFacts.

(** ** The chat bot *)

Section BotFacts.
Import Bot BotExamples.
Local Open Scope comp_scope.

Variable rt : Runtime.

Lemma contentItem_total (acc : string) (item : ContentBlock) (tr : Trace) :
  ∃ s tr', contentItem rt acc item tr = (Ok s, tr').
Proof.
  destruct item as [t|tu|]; simpl.
  - destruct (truthy t); eexists _, _; reflexivity.
  - unfold tryCatch, lift. destruct (JSON_stringify rt (input tu)) as [s|e];
      eexists _, _; reflexivity.
  - eexists _, _; reflexivity.
Qed.

Lemma content_total (items : list ContentBlock) (acc : string) (tr : Trace) :
  ∃ s tr', forOf (contentItem rt) acc items tr = (Ok s, tr').
Proof. apply forOf_total. apply contentItem_total. Qed.

Lemma contentItem_text (acc t : string) (tr : Trace) :
  contentItem rt acc (TextMember t) tr = (Ok (acc +:+ t), tr).
Proof.
  destruct t as [|c t]; cbn [contentItem truthy]; unfold ret.
  - by rewrite append_empty_r.
  - reflexivity.
Qed.

Lemma content_texts (fragments : list string) (acc : string) (tr : Trace) :
  forOf (contentItem rt) acc (map TextMember fragments) tr
  = (Ok (acc +:+ concatenation fragments), tr).
Proof.
  revert acc. induction fragments as [|t ts IH]; intros acc.
  - simpl. by rewrite append_empty_r.
  - cbn [map forOf]. unfold bind. rewrite contentItem_text, IH.
    simpl. by rewrite append_assoc.
Qed.

Lemma contentItem_tool (acc s : string) (tu : ToolUseBlock) (tr : Trace) :
  JSON_stringify rt (input tu) = Ok s →
  contentItem rt acc (ToolUseMember tu) tr = (Ok s, tr).
Proof. intros H. simpl. unfold tryCatch, lift. by rewrite H. Qed.

(** Whatever came before it, a tool-call item that serializes leaves its
    serialized input, and the text items after it are appended. *)
Lemma content_tool_then_texts (pre : list ContentBlock) (tu : ToolUseBlock)
    (fragments : list string) (acc s : string) (tr : Trace) :
  JSON_stringify rt (input tu) = Ok s →
  ∃ tr', forOf (contentItem rt) acc
           (pre ++ ToolUseMember tu :: map TextMember fragments)%list tr
         = (Ok (s +:+ concatenation fragments), tr').
Proof.
  intros Hs. rewrite forOf_app. unfold bind.
  destruct (content_total pre acc tr) as (a & tr1 & ->).
  cbn [forOf]. unfold bind. rewrite (contentItem_tool _ _ _ _ Hs), content_texts.
  by eexists.
Qed.

(** When the service answered, [chat] returns the text the loop over the
    content items computes, with the identifiers of the response. *)
Lemma chat_of_response (bot : Bot) (message : string) (jsonSchema : option JsonSchema)
    (tr tr1 tr2 : Trace) (r : ConverseCommandOutput) (m : Message) (s : string) :
  truthy message = true →
  sendMessage bot rt (Date_now rt 0) message jsonSchema tr = (Ok (Some r), tr1) →
  messageOf (Some r) = Some m →
  forOf (contentItem rt) "" (default [] (content m)) tr1 = (Ok s, tr2) →
  ∃ tr', chat bot rt message jsonSchema tr = (Ok (s, newIds (Some r)), tr').
Proof.
  intros Hmsg Hsend Hm Hloop.
  unfold chat, tryCatch, chat_. rewrite Hmsg. cbn [negb].
  unfold bind at 1. rewrite Hsend.
  unfold bind at 1. unfold responseTextOf. rewrite Hm, Hloop.
  destruct (debug (options bot)); eexists; reflexivity.
Qed.

End BotFacts.

Section BotClaims.
Import Bot BotExamples.

(** C1, as stated, fails: the serialization of a tool-call input is an
    internal step, and when it throws (the warning in the trace records it)
    [chat] still returns the identifiers of the response, and the text that
    follows the tool call. *)
Lemma serialization_failure_keeps_identifiers :
  let alone :=
    chat (botOf (answering [tool circularInput]) false 0) runtime "Explain X" None [] in
  let followed :=
    chat (botOf (answering [tool circularInput; TextMember "fine."]) false 0)
      runtime "Explain X" None [] in
  JSON_stringify runtime circularInput
  = Throw (mkError "TypeError" "Converting circular structure to JSON")
  ∧ In (Warning ("Failed to parse tool use input as JSON: "
                 +:+ "TypeError: Converting circular structure to JSON")) (snd alone)
  ∧ fst alone = Ok ("", mkIds (Some "req-1") None)
  ∧ fst followed = Ok ("fine.", mkIds (Some "req-1") None)
  ∧ fst alone ≠ Ok ("", mkIds None None)
  ∧ fst followed ≠ Ok ("", mkIds None None).
Proof.
  vm_compute. repeat split; try reflexivity; try discriminate.
  right. right. by left.
Qed.

(** C1, amended.  [chat] never raises to its caller: on every message,
    schema and earlier trace it returns a result.  Whenever an exception
    leaves [chat_], that result has the empty text and both identifiers
    absent, and [chat] adds one warning to the trace; the same result is
    returned when every send to the service fails, retries included.
    Whenever the service answered, the result carries the identifiers of
    the response, whether or not a tool-call input failed to serialize. *)
Theorem chat_never_raises (bot : Bot) (rt : Runtime) (message : string)
    (jsonSchema : option JsonSchema) (tr : Trace) :
  (∃ res tr', chat bot rt message jsonSchema tr = (Ok res, tr'))
  ∧ (∀ e tr1,
       chat_ bot rt message jsonSchema tr = (Throw e, tr1) →
       chat bot rt message jsonSchema tr
       = (Ok ("", mkIds None None),
          (tr1 ++ [Warning ("Failed to chat: " +:+ errorToString e)])%list))
  ∧ ((∀ params attempt, ∃ e, send (client bot) params attempt = Throw e) →
     ∃ tr', chat bot rt message jsonSchema tr = (Ok ("", mkIds None None), tr'))
  ∧ (∀ r tr1,
       truthy message = true →
       sendMessage bot rt (Date_now rt 0) message jsonSchema tr = (Ok (Some r), tr1) →
       ∃ text tr', chat bot rt message jsonSchema tr = (Ok (text, newIds (Some r)), tr')).
Proof.
  split; [|split; [|split]]; cycle 3.
  { intros r tr1 Hmsg Hsend. unfold chat, tryCatch, chat_. rewrite Hmsg. cbn [negb].
    unfold bind at 1. rewrite Hsend. unfold bind at 1. unfold responseTextOf.
    destruct (messageOf (Some r)) as [m|].
    - destruct (content_total rt (default [] (content m)) "" tr1) as (s & tr2 & ->).
      destruct (debug (options bot)); eexists _, _; reflexivity.
    - destruct (debug (options bot)); eexists _, _; reflexivity. }
  - unfold chat, tryCatch.
    destruct (chat_ bot rt message jsonSchema tr) as [[res|e] tr1];
      eexists _, _; reflexivity.
  - intros e tr1 H. unfold chat, tryCatch. rewrite H. reflexivity.
  - intros Hdown. unfold chat, tryCatch, chat_.
    destruct (truthy message); cbn [negb]; [|eexists; reflexivity].
    unfold bind at 1. unfold sendMessage.
    match goal with
    | |- context [bind ?dbg _ tr] => unfold bind at 1; destruct (dbg tr) as [[[]|e0] tr0]
    end; [|eexists; reflexivity].
    unfold bind at 1. unfold tryCatch at 1. unfold bind at 1. unfold pRetry.
    match goal with
    | |- context [pRetryFrom ?op 1 ?n tr0] =>
        destruct (pRetryFrom_exhausted op n) with (attempt := 1%nat) (st := tr0)
          as (e1 & tr1 & ->)
    end.
    { intros attempt st. unfold external.
      destruct (Hdown (commandParams bot
        ("IMPORTANT: Entire response must be in the language with ISO code: "
         +:+ language (options bot) +:+ nl +:+ nl +:+ message) jsonSchema) attempt)
        as [e1 ->].
      eexists _, _. reflexivity. }
    cbn. destruct (debug (options bot)); eexists; reflexivity.
Qed.

Lemma chat_never_raises_witness :
  fst (chat (botOf (answering []) true 0) runtime "hi" (Some bigSchema) [])
  = Ok ("", mkIds None None)
  ∧ fst (chat (botOf down false 2) runtime "hi" None []) = Ok ("", mkIds None None)
  ∧ ∃ text tr',
      chat (botOf (answering [tool circularInput]) false 0) runtime "Explain X" None []
      = (Ok (text, mkIds (Some "req-1") None), tr').
Proof.
  split; [|split].
  - erewrite (proj1 (proj2 (chat_never_raises (botOf (answering []) true 0)
                              runtime "hi" (Some bigSchema) []))).
    + reflexivity.
    + reflexivity.
  - destruct (proj1 (proj2 (proj2 (chat_never_raises (botOf down false 2) runtime
                                     "hi" None []))))
      as [tr' ->].
    + intros params attempt. exists serviceDown. reflexivity.
    + reflexivity.
  - eapply (proj2 (proj2 (proj2 (chat_never_raises
                                   (botOf (answering [tool circularInput]) false 0)
                                   runtime "Explain X" None [])))
              (response [tool circularInput])).
    + reflexivity.
    + vm_compute. reflexivity.
Defined.

(** C3.  The content items are processed in the order the service
    returned them: processing [l1 ++ l2] is processing [l1] and then [l2]
    from where [l1] ended.  A tool-call item whose input serializes
    replaces whatever text was accumulated, so for a response whose content
    is a text item (or any items) followed by a tool-call item, the text
    [chat] returns is the serialized input of the tool call. *)
Theorem tool_call_replaces_earlier_text (bot : Bot) (rt : Runtime) (message : string)
    (jsonSchema : option JsonSchema) (tr tr1 : Trace) (r : ConverseCommandOutput)
    (m : Message) (pre : list ContentBlock) (tu : ToolUseBlock) (s : string) :
  truthy message = true →
  sendMessage bot rt (Date_now rt 0) message jsonSchema tr = (Ok (Some r), tr1) →
  messageOf (Some r) = Some m →
  content m = Some (pre ++ [ToolUseMember tu])%list →
  JSON_stringify rt (input tu) = Ok s →
  (∀ l1 l2 acc tr0,
     forOf (contentItem rt) acc (l1 ++ l2)%list tr0
     = bind (forOf (contentItem rt) acc l1) (λ acc', forOf (contentItem rt) acc' l2) tr0)
  ∧ (∀ acc tr0, contentItem rt acc (ToolUseMember tu) tr0 = (Ok s, tr0))
  ∧ ∃ tr', chat bot rt message jsonSchema tr = (Ok (s, newIds (Some r)), tr').
Proof.
  intros Hmsg Hsend Hm Hc Hs. split; [|split].
  - intros. apply forOf_app.
  - intros. by apply contentItem_tool.
  - destruct (content_tool_then_texts rt pre tu [] "" s tr1 Hs) as [tr2 Hloop].
    cbn [map concatenation foldr] in Hloop. rewrite append_empty_r in Hloop.
    eapply chat_of_response; eauto. rewrite Hc. exact Hloop.
Qed.

Lemma tool_call_replaces_earlier_text_witness :
  ∃ tr', chat (botOf (answering [TextMember "Here is the review: "; tool (DNum 42)]) false 0)
           runtime "Explain X" (Some schema) []
         = (Ok ("42", mkIds (Some "req-1") None), tr').
Proof.
  eapply (tool_call_replaces_earlier_text _ runtime "Explain X" (Some schema) [] _
            (response [TextMember "Here is the review: "; tool (DNum 42)])
            _ [TextMember "Here is the review: "] _ "42"); vm_compute; reflexivity.
Defined.

(** C6.  For a response whose content holds text items only, the text
    [chat] returns is the concatenation of the fragments in their order. *)
Theorem text_only_response_is_concatenated (bot : Bot) (rt : Runtime) (message : string)
    (jsonSchema : option JsonSchema) (tr tr1 : Trace) (r : ConverseCommandOutput)
    (m : Message) (fragments : list string) :
  truthy message = true →
  sendMessage bot rt (Date_now rt 0) message jsonSchema tr = (Ok (Some r), tr1) →
  messageOf (Some r) = Some m →
  content m = Some (map TextMember fragments) →
  ∃ tr', chat bot rt message jsonSchema tr
         = (Ok (concatenation fragments, newIds (Some r)), tr').
Proof.
  intros Hmsg Hsend Hm Hc.
  eapply chat_of_response; eauto. rewrite Hc. cbn [default]. apply content_texts.
Qed.

Lemma text_only_response_is_concatenated_witness :
  ∃ tr', chat (botOf (flaky [TextMember "Looks "; TextMember ""; TextMember "fine."]) true 3)
           runtime "Explain X" None []
         = (Ok ("Looks fine.", mkIds (Some "req-1") None), tr').
Proof.
  eapply (text_only_response_is_concatenated _ runtime "Explain X" None [] _
            (response [TextMember "Looks "; TextMember ""; TextMember "fine."])
            _ ["Looks "; ""; "fine."]); vm_compute; reflexivity.
Defined.

(** C7.  When the input of a tool-call item fails to serialize, the step
    for that item sets the accumulated text to the empty string, writes one
    warning and does not throw; so does the loop that ends on the item. *)
Theorem serialization_failure_yields_empty_text (rt : Runtime) (tu : ToolUseBlock)
    (e : Error) :
  JSON_stringify rt (input tu) = Throw e →
  (∀ acc tr,
     contentItem rt acc (ToolUseMember tu) tr
     = (Ok "", (tr ++ [Warning ("Failed to parse tool use input as JSON: "
                                +:+ errorToString e)])%list))
  ∧ (∀ pre acc tr,
       ∃ tr', forOf (contentItem rt) acc (pre ++ [ToolUseMember tu])%list tr = (Ok "", tr')).
Proof.
  intros He.
  assert (Hstep : ∀ acc tr,
    contentItem rt acc (ToolUseMember tu) tr
    = (Ok "", (tr ++ [Warning ("Failed to parse tool use input as JSON: "
                               +:+ errorToString e)])%list)).
  { intros acc tr. cbn [contentItem]. unfold tryCatch, lift. rewrite He. reflexivity. }
  split; [exact Hstep|].
  intros pre acc tr. rewrite forOf_app. unfold bind.
  destruct (content_total rt pre acc tr) as (a & tr1 & ->).
  cbn [forOf]. unfold bind. rewrite Hstep. eexists. reflexivity.
Qed.

Lemma serialization_failure_yields_empty_text_witness :
  ∃ tr', forOf (contentItem runtime) "" [TextMember "draft"; tool circularInput] []
         = (Ok "", tr').
Proof.
  apply (proj2 (serialization_failure_yields_empty_text runtime
                  {| toolUseId := Some "t1"; toolUse_name := Some "review";
                     input := circularInput |}
                  (mkError "TypeError" "Converting circular structure to JSON")
                  eq_refl)
           [TextMember "draft"] "" []).
Defined.

(** C10.  Text items after the last tool-call item are appended to the
    serialized input of that tool call: for a response whose content is a
    tool-call item (after any items) followed by text items, the text
    [chat] returns is the serialized input followed by the later
    fragments. *)
Theorem text_after_tool_call_is_appended (bot : Bot) (rt : Runtime) (message : string)
    (jsonSchema : option JsonSchema) (tr tr1 : Trace) (r : ConverseCommandOutput)
    (m : Message) (pre : list ContentBlock) (tu : ToolUseBlock)
    (fragments : list string) (s : string) :
  truthy message = true →
  sendMessage bot rt (Date_now rt 0) message jsonSchema tr = (Ok (Some r), tr1) →
  messageOf (Some r) = Some m →
  content m = Some (pre ++ ToolUseMember tu :: map TextMember fragments)%list →
  JSON_stringify rt (input tu) = Ok s →
  ∃ tr', chat bot rt message jsonSchema tr
         = (Ok (s +:+ concatenation fragments, newIds (Some r)), tr').
Proof.
  intros Hmsg Hsend Hm Hc Hs.
  destruct (content_tool_then_texts rt pre tu fragments "" s tr1 Hs) as [tr2 Hloop].
  eapply chat_of_response; eauto. rewrite Hc. exact Hloop.
Qed.

Lemma text_after_tool_call_is_appended_witness :
  ∃ tr', chat (botOf (answering [tool (DNum 42); TextMember " is the answer"]) false 0)
           runtime "Explain X" None []
         = (Ok ("42 is the answer", mkIds (Some "req-1") None), tr').
Proof.
  eapply (text_after_tool_call_is_appended _ runtime "Explain X" None [] _
            (response [tool (DNum 42); TextMember " is the answer"])
            _ [] _ [" is the answer"] "42"); vm_compute; reflexivity.
Defined.

End BotClaims.

(** ** The SOP retriever *)

Section RetrieverFacts.
Import SopRetriever SopExamples.
Local Open Scope comp_scope.

(** [getRelevantSops], step by step. *)
Lemma getRelevantSops_steps (env : Env) (diffChunk : string) (st : State) :
  getRelevantSops env diffChunk st =
  match initializePinecone env st with
  | (Throw e, st1) =>
      (Ok [], record (Warning ("Failed to retrieve relevant SOPs: " +:+ message e)) st1)
  | (Ok _, st1) =>
      match pineconeIndex st1 with
      | None =>
          (Ok [], record (Warning "Pinecone index not initialized, skipping SOP retrieval") st1)
      | Some i =>
          match embedText env diffChunk
                  (record (Info ("Embedding diff chunk ("
                                 +:+ pretty (String.length diffChunk)
                                 +:+ " characters)")) st1) with
          | (Throw e, st2) =>
              (Ok [], record (Warning ("Failed to retrieve relevant SOPs: " +:+ message e)) st2)
          | (Ok v, st2) =>
              let st3 := record (Call (QueryIndex (topThree v)))
                           (record (Info "Querying Pinecone for relevant SOPs") st2) in
              match query i (topThree v) with
              | Throw e =>
                  (Ok [], record (Warning ("Failed to retrieve relevant SOPs: "
                                           +:+ message e)) st3)
              | Ok resp =>
                  match matches resp with
                  | None | Some [] =>
                      (Ok [], record (Info "No relevant SOPs found for this diff chunk") st3)
                  | Some ms =>
                      (Ok (map sopOfMatch ms),
                       record (Info ("Retrieved " +:+ pretty (length (map sopOfMatch ms))
                                     +:+ " relevant SOP(s) for diff chunk (scores: "
                                     +:+ join ", " (map scoreText (map sopOfMatch ms))
                                     +:+ ")")) st3)
                  end
              end
          end
      end
  end.
Proof.
  unfold getRelevantSops, tryCatch. unfold bind at 1.
  destruct (initializePinecone env st) as [[[]|e] st1]; [|reflexivity].
  unfold bind at 1, get. destruct (pineconeIndex st1) as [i|]; [|reflexivity].
  unfold bind at 1, info, emit, modify. unfold bind at 1.
  destruct (embedText env diffChunk _) as [[v|e] st2]; [|reflexivity].
  unfold bind at 1. unfold bind at 1. unfold external, topThree.
  destruct (query i _) as [resp|e]; [|reflexivity].
  destruct (matches resp) as [[|m ms]|]; reflexivity.
Qed.

(** The index handle after [initializePinecone] is the one from before,
    or one the client of the environment handed out. *)
Lemma initializePinecone_index (env : Env) (st st1 : State) (r : Res unit) :
  initializePinecone env st = (r, st1) →
  pineconeIndex st1 = pineconeIndex st
  ∨ ∃ apiKey c indexName i,
      newPinecone env apiKey = Ok c ∧ index c indexName = Ok i
      ∧ pineconeIndex st1 = Some i.
Proof.
  unfold initializePinecone, bind, get.
  destruct (pineconeClient st); [intros [= <- <-]; by left|].
  destruct (negb _); [intros [= <- <-]; by left|].
  run.
  destruct (newPinecone env _) as [c|e] eqn:Hc; [|intros [= <- <-]; by left].
  destruct (index c _) as [i|e] eqn:Hi; intros [= <- <-]; [|by left].
  right. eauto 10.
Qed.

Lemma initializeEmbedder_index (env : Env) (st : State) :
  pineconeIndex (initializeEmbedder env st).2 = pineconeIndex st.
Proof.
  unfold initializeEmbedder, bind, get. destruct (embedder st); [reflexivity|].
  run.
  destruct (pipeline env _ _); reflexivity.
Qed.

(** Embedding leaves the index handle alone. *)
Lemma embedText_index (env : Env) (text : string) (st : State) :
  pineconeIndex (embedText env text st).2 = pineconeIndex st.
Proof.
  unfold embedText, tryCatch. unfold bind at 1.
  pose proof (initializeEmbedder_index env st) as Hinit.
  destruct (initializeEmbedder env st) as [[[]|e] st1]; simpl in Hinit;
    [|by rewrite <- Hinit].
  run.
  destruct (embedder st1) as [emb|]; [|by rewrite <- Hinit].
  destruct (run emb text) as [out|e]; [|by rewrite <- Hinit].
  destruct (vectorOf out) as [v|e]; [|by rewrite <- Hinit].
  destruct (negb _); by rewrite <- Hinit.
Qed.

(** The mapping of the code is the mapping of the specification. *)
Lemma sopOfMatch_image (m : ScoredRecord) : sopOfMatch m = sopImage m.
Proof.
  unfold sopOfMatch, sopImage. f_equal.
  destruct (match_metadata m) as [md|]; [|reflexivity]. simpl.
  destruct (md !! "text") as [[|c t]|]; reflexivity.
Qed.

(** [getRelevantSops] never raises. *)
Lemma getRelevantSops_total (env : Env) (diffChunk : string) (st : State) :
  ∃ sops st', getRelevantSops env diffChunk st = (Ok sops, st').
Proof.
  rewrite getRelevantSops_steps.
  destruct (initializePinecone env st) as [[[]|e] st1]; [|by eexists _, _].
  destruct (pineconeIndex st1) as [i|]; [|by eexists _, _].
  destruct (embedText env diffChunk _) as [[v|e] st2]; [|by eexists _, _].
  cbv zeta. destruct (query i _) as [resp|e]; [|by eexists _, _].
  destruct (matches resp) as [[|m ms]|]; by eexists _, _.
Qed.

Lemma constructions_snoc (tr : list (Event Outside)) (ev : Event Outside) :
  constructions (tr ++ [ev])%list
  = (constructions tr + (if isConstruction ev then 1 else 0))%nat.
Proof.
  unfold constructions. rewrite List.filter_app, length_app. simpl.
  destruct (isConstruction ev); reflexivity.
Qed.

Lemma seeded_honoursTopK (stored : list ScoredRecord) : honoursTopK (seeded stored).
Proof.
  intros opts resp ms [= <-] [= <-]. rewrite length_take. lia.
Qed.

End RetrieverFacts.

Section RetrieverClaims.
Import SopRetriever SopExamples.
Local Open Scope comp_scope.

(** C2.  Whenever a step of [getRelevantSops] fails (the initialization
    of the index client throws, the embedding throws, or the query of the
    index throws) and also when no index handle is available after the
    initialization, the call does not raise and returns the empty list. *)
Theorem retrieval_failure_yields_empty (env : Env) (diffChunk : string) (st : State) :
  RetrievalFails env diffChunk st →
  ∃ st', getRelevantSops env diffChunk st = (Ok [], st').
Proof.
  intros Hfail. rewrite getRelevantSops_steps.
  destruct Hfail as [e st1 Hinit|st1 Hinit Hnone|st1 st2 i e Hinit Hi Hembed
                    |st1 st2 i v e Hinit Hi Hembed Hquery];
    rewrite Hinit; [by eexists|..]; rewrite ?Hnone, ?Hi; [by eexists|..];
    rewrite Hembed; [by eexists|].
  cbv zeta. rewrite Hquery. by eexists.
Qed.

Lemma retrieval_failure_yields_empty_witness :
  (∃ st', getRelevantSops noCredential "fix null pointer" initial = (Ok [], st'))
  ∧ (∃ st', getRelevantSops healthy "fix null pointer" halfInitialized = (Ok [], st'))
  ∧ (∃ st', getRelevantSops noEncoder "fix null pointer" initial = (Ok [], st'))
  ∧ (∃ st', getRelevantSops noIndex "fix null pointer" initial = (Ok [], st')).
Proof.
  repeat split.
  - apply retrieval_failure_yields_empty.
    eapply InitializationFails. vm_compute. reflexivity.
  - apply retrieval_failure_yields_empty.
    eapply IndexUnavailable; vm_compute; reflexivity.
  - apply retrieval_failure_yields_empty.
    eapply EmbeddingFails; vm_compute; reflexivity.
  - apply retrieval_failure_yields_empty.
    eapply QueryFails; vm_compute; reflexivity.
Defined.

(** C4, as stated, fails: the code asks the index for the top 3 and maps
    every match of the answer without cutting the list, so an index that
    answers with five matches yields five SOPs. *)
Lemma five_matches_give_five_sops :
  fst (getRelevantSops unbounded "fix null pointer" initial)
  = Ok (map sopOfMatch candidates)
  ∧ length (map sopOfMatch candidates) = 5%nat
  ∧ ¬ (length (map sopOfMatch candidates) ≤ 3)%nat.
Proof.
  split; [vm_compute; reflexivity|]. split; [reflexivity|]. cbn. lia.
Qed.

(** C4, amended.  Provided every index the call can reach honours its
    contract (a query returns at most [topK] matches), [getRelevantSops]
    returns at most 3 SOPs on every text, and the SOPs it returns are, in
    order, the images of the matches of the index under the mapping
    [{text: metadata.text or "", id: match.id, score: match.score,
      metadata: match.metadata}]; when there are any, these matches are the
    answer of the connected index to the query for the top 3. *)
Theorem retrieval_returns_at_most_three (env : Env) (diffChunk : string) (st : State) :
  indexesHonourTopK env st →
  ∃ sops st',
    getRelevantSops env diffChunk st = (Ok sops, st')
    ∧ (length sops ≤ 3)%nat
    ∧ ∃ ms,
        sops = map sopImage ms
        ∧ (ms = []
           ∨ ∃ i v, pineconeIndex st' = Some i
                    ∧ query i (topThree v) = Ok {| matches := Some ms |}).
Proof.
  intros [Hst Henv].
  assert (Hnil : ∀ st', ∃ sops st'',
    (Ok (@nil SOP), st') = (Ok sops, st'') ∧ (length sops ≤ 3)%nat
    ∧ ∃ ms, sops = map sopImage ms
            ∧ (ms = [] ∨ ∃ i v, pineconeIndex st'' = Some i
                                ∧ query i (topThree v) = Ok {| matches := Some ms |})).
  { intros st'. exists [], st'. split; [reflexivity|]. split; [simpl; lia|].
    exists []. split; [reflexivity|]. by left. }
  rewrite getRelevantSops_steps.
  destruct (initializePinecone env st) as [[[]|e] st1] eqn:Hinit; [|apply Hnil].
  destruct (pineconeIndex st1) as [i|] eqn:Hi; [|apply Hnil].
  assert (Hcontract : honoursTopK i).
  { destruct (initializePinecone_index _ _ _ _ Hinit)
      as [Hsame|(apiKey & c & indexName & i' & Hc & Hopen & Hi')].
    - apply Hst. congruence.
    - assert (i' = i) as -> by congruence. by eapply Henv. }
  pose proof (embedText_index env diffChunk
    (record (Info ("Embedding diff chunk (" +:+ pretty (String.length diffChunk)
                   +:+ " characters)")) st1)) as Hkeep.
  destruct (embedText env diffChunk _) as [[v|e] st2]; [|apply Hnil].
  cbv zeta. destruct (query i (topThree v)) as [resp|e] eqn:Hquery; [|apply Hnil].
  destruct (matches resp) as [[|m ms]|] eqn:Hms; [apply Hnil| |apply Hnil].
  eexists _, _. split; [reflexivity|]. split.
  - rewrite length_map. apply (Hcontract _ _ _ Hquery Hms).
  - exists (m :: ms). split.
    + apply map_ext. intros. apply sopOfMatch_image.
    + right. exists i, v. split.
      * simpl in Hkeep |- *. congruence.
      * rewrite Hquery. destruct resp. simpl in Hms. congruence.
Qed.

Lemma retrieval_returns_at_most_three_witness :
  ∃ sops st',
    getRelevantSops healthy "fix null pointer" initial = (Ok sops, st')
    ∧ (length sops ≤ 3)%nat
    ∧ ∃ ms,
        sops = map sopImage ms
        ∧ (ms = []
           ∨ ∃ i v, pineconeIndex st' = Some i
                    ∧ query i (topThree v) = Ok {| matches := Some ms |}).
Proof.
  apply retrieval_returns_at_most_three. split.
  - intros i [=].
  - intros apiKey c indexName i [= <-] [= <-]. apply seeded_honoursTopK.
Defined.

(** C5.  When the access credential is not configured, the
    initialization of the index client throws at once: the client has not
    been constructed, no call has left the process and nothing was written,
    and the error comes out of [initializePinecone] as thrown, neither
    retried nor caught there. *)
Theorem missing_credential_raises (env : Env) (st : State) :
  pineconeClient st = None →
  getInput env "pinecone_api_key" = "" →
  initializePinecone env st
  = (Throw (mkError "Error" "PINECONE_API_KEY environment variable is not set"), st).
Proof.
  intros Hclient Hkey. unfold initializePinecone, bind, get.
  rewrite Hclient, Hkey. reflexivity.
Qed.

Lemma missing_credential_raises_witness :
  initializePinecone noCredential initial
  = (Throw (mkError "Error" "PINECONE_API_KEY environment variable is not set"), initial).
Proof.
  apply missing_credential_raises; reflexivity.
Defined.

(** C8.  When the construction of the encoder fails on a call of
    [embedText], the failure is thrown to the caller and the encoder
    variable stays [null]; the next call, whatever the environment then
    does, attempts the construction once more, and when that construction
    succeeds the encoder it built is kept. *)
Theorem failed_construction_is_retried (env : Env) (text : string) (st : State)
    (e : Error) :
  embedder st = None →
  pipeline env "feature-extraction" "Xenova/all-MiniLM-L6-v2" = Throw e →
  ∃ st',
    embedText env text st = (Throw e, st')
    ∧ embedder st' = None
    ∧ ∀ env2 text2,
        constructions (trace (embedText env2 text2 st').2) = S (constructions (trace st'))
        ∧ ∀ emb,
            pipeline env2 "feature-extraction" "Xenova/all-MiniLM-L6-v2" = Ok emb →
            embedder (embedText env2 text2 st').2 = Some emb.
Proof.
  intros Hnone Hfail.
  unfold embedText at 1. unfold initializeEmbedder. run.
  rewrite Hnone, Hfail. eexists. split; [reflexivity|]. split; [exact Hnone|].
  intros env2 text2.
  unfold embedText, initializeEmbedder. run.
  cbn [embedder record]. rewrite Hnone.
  destruct (pipeline env2 _ _) as [emb|e2].
  - cbn [embedder set_embedder record].
    destruct (run emb text2) as [out|e3];
      [destruct (vectorOf out) as [v|e3]; [destruct (length v =? 384)%nat|]|];
      (split; [|intros ? [= <-]; reflexivity]);
      cbn [negb snd trace record set_embedder];
      rewrite !constructions_snoc; cbn [isConstruction]; lia.
  - split; [|intros ? [=]].
    cbn [snd trace record]. rewrite !constructions_snoc. cbn [isConstruction]. lia.
Qed.

Lemma failed_construction_is_retried_witness :
  ∃ st',
    embedText noEncoder "fix null pointer" initial = (Throw modelMissing, st')
    ∧ embedder st' = None
    ∧ ∀ env2 text2,
        constructions (trace (embedText env2 text2 st').2) = S (constructions (trace st'))
        ∧ ∀ emb,
            pipeline env2 "feature-extraction" "Xenova/all-MiniLM-L6-v2" = Ok emb →
            embedder (embedText env2 text2 st').2 = Some emb.
Proof.
  apply failed_construction_is_retried; reflexivity.
Defined.

(** C9, as stated, fails twice.  An SOP whose id is the empty string has
    an id, and its heading carries no [(ID: ...)] suffix.  An SOP whose
    score is [NaN], or a number from 10^21 on, has a score, and its suffix
    does not show three decimal places. *)
Lemma blank_id_gets_no_suffix :
  id blankId = Some ""
  ∧ formatSopsForPrompt [blankId]
    = nl +:+ "<relevant_sops>" +:+ nl +:+ "### Relevant SOP 1" +:+ nl +:+ nl +:+ "t"
      +:+ nl +:+ "</relevant_sops>" +:+ nl
  ∧ String.index 0 "(ID:" (formatSopsForPrompt [blankId]) = None
  ∧ (¬ ∃ idSuffix relevance,
         sopEntry 0 blankId
         = "### Relevant SOP " +:+ pretty 1%nat +:+ idSuffix +:+ relevance
           +:+ nl +:+ nl +:+ text blankId
         ∧ IdSuffixAsStated blankId idSuffix ∧ RelevanceSuffix blankId relevance)
  ∧ formatSopsForPrompt [scored NaN]
    = nl +:+ "<relevant_sops>" +:+ nl +:+ "### Relevant SOP 1 (relevance: NaN)"
      +:+ nl +:+ nl +:+ "t" +:+ nl +:+ "</relevant_sops>" +:+ nl
  ∧ formatSopsForPrompt [scored (Huge false "1e+21")]
    = nl +:+ "<relevant_sops>" +:+ nl +:+ "### Relevant SOP 1 (relevance: 1e+21)"
      +:+ nl +:+ nl +:+ "t" +:+ nl +:+ "</relevant_sops>" +:+ nl
  ∧ ¬ ThreeDecimals (toFixed NaN 3)
  ∧ ¬ ThreeDecimals (toFixed (Huge false "1e+21") 3).
Proof.
  split; [reflexivity|]. split; [reflexivity|]. split; [reflexivity|].
  split.
  { intros (idSuffix & relevance & Hentry & Hid & Hrel).
    cbv [IdSuffixAsStated RelevanceSuffix blankId id score] in Hid, Hrel. subst.
    vm_compute in Hentry. discriminate Hentry. }
  split; [reflexivity|]. split; [reflexivity|].
  split; intros (sign & whole & d1 & d2 & d3 & Heq & Hsign & Hne & Hw & H1 & H2 & H3);
    cbn [toFixed] in Heq.
  - destruct whole as [|c whole]; [done|].
    destruct Hsign as [-> | ->]; [|discriminate Heq].
    injection Heq as <- _. cbn [allDigits] in Hw. discriminate Hw.
  - destruct Hsign as [-> | ->]; [|discriminate Heq].
    destruct whole as [|c [|c' whole]]; [done| |].
    + injection Heq as _ Heq. discriminate Heq.
    + injection Heq as <- <- _. cbn [allDigits] in Hw. discriminate Hw.
Qed.

(** C9, amended.  [formatSopsForPrompt] of the empty list is the empty
    string, with no delimiter tags.  Of a non-empty list of [n] SOPs it is
    the block of [n] entries joined by a blank line and wrapped in the tags
    [<relevant_sops>] and [</relevant_sops>]; the entry at position [k]
    (from 0) is the heading [### Relevant SOP k+1], followed by an
    [(ID: ...)] suffix exactly when the SOP has an id that is not the empty
    string, by a [(relevance: ...)] suffix that holds [score.toFixed(3)]
    exactly when it has a score, by a blank line and by the text.  The
    relevance shows three decimal places ([x.xxx]) when the score is a
    finite number of magnitude below 10^21. *)
Theorem format_sops_block (sops : list SOP) :
  formatSopsForPrompt [] = ""
  ∧ (sops ≠ [] →
     ∃ entries,
       formatSopsForPrompt sops
       = nl +:+ "<relevant_sops>" +:+ nl +:+ join (nl +:+ nl) entries
         +:+ nl +:+ "</relevant_sops>" +:+ nl
       ∧ length entries = length sops
       ∧ ∀ k sop,
           sops !! k = Some sop →
           ∃ idSuffix relevance,
             entries !! k
             = Some ("### Relevant SOP " +:+ pretty (S k) +:+ idSuffix +:+ relevance
                     +:+ nl +:+ nl +:+ text sop)
             ∧ IdSuffix sop idSuffix ∧ RelevanceSuffix sop relevance).
Proof.
  split; [reflexivity|]. intros Hne.
  exists (imap sopEntry sops). split; [|split].
  - unfold formatSopsForPrompt. destruct sops; [done|reflexivity].
  - apply length_imap.
  - intros k sop Hk. rewrite list_lookup_imap, Hk. cbn [fmap option_fmap option_map].
    unfold sopEntry. replace (k + 1)%nat with (S k) by lia.
    eexists _, _. split; [reflexivity|]. split.
    + unfold IdSuffix. destruct (id sop) as [i|]; [|reflexivity].
      destruct (decide (i = "")) as [->|Hi]; [reflexivity|].
      destruct i; [done|reflexivity].
    + unfold RelevanceSuffix. destruct (score sop) as [x|]; [|reflexivity].
      split; [reflexivity|]. apply toFixed_three_decimals.
Qed.

Lemma format_sops_block_witness :
  ∃ entries,
    formatSopsForPrompt (map sopOfMatch (take 3 candidates))
    = nl +:+ "<relevant_sops>" +:+ nl +:+ join (nl +:+ nl) entries
      +:+ nl +:+ "</relevant_sops>" +:+ nl
    ∧ length entries = 3%nat.
Proof.
  destruct (proj2 (format_sops_block (map sopOfMatch (take 3 candidates))))
    as (entries & Hblock & Hlen & _).
  - discriminate.
  - exists entries. split; [exact Hblock|exact Hlen].
Defined.

End RetrieverClaims.

(** ** Further properties of the chat bot *)

Section BotSends.
Import Bot BotExamples.

Lemma sendsOf_record (ev : Event Outside) (tr : Trace) :
  sendsOf (record ev tr)
  = (sendsOf tr ++ match ev with
                   | Call (SendConverse params attempt) => [(params, attempt)]
                   | _ => []
                   end)%list.
Proof.
  unfold sendsOf, record. rewrite flat_map_app. simpl. by rewrite app_nil_r.
Qed.

Lemma attempts_cons (params : ConverseCommandInput) (first count : nat) :
  attempts params first (S count) = (params, first) :: attempts params (S first) count.
Proof. reflexivity. Qed.

(** The sends of [pRetry]: it stops at the first attempt that succeeds, and
    after [retries + 1] attempts at the latest. *)
Lemma pRetryFrom_sends (c : BedrockRuntimeClient) (params : ConverseCommandInput)
    (retries first : nat) (tr : Trace) :
  let out := pRetryFrom (λ attempt, external record (SendConverse params attempt)
                                      (send c params attempt)) first retries tr in
  ∃ count,
    (1 ≤ count ≤ S retries)%nat
    ∧ sendsOf (snd out) = (sendsOf tr ++ attempts params first count)%list
    ∧ fst out = send c params (first + count - 1)
    ∧ (∀ j, (j < count - 1)%nat → ∃ e, send c params (first + j) = Throw e)
    ∧ ((count ≤ retries)%nat → ∃ r, fst out = Ok r).
Proof.
  revert first tr. unfold external.
  cbv zeta. induction retries as [|n IH]; intros first tr.
  - exists 1%nat. cbn [pRetryFrom]. unfold tryCatch, throw.
    replace (first + 1 - 1)%nat with first by lia.
    destruct (send c params first) as [r|e] eqn:Hsend; cbn [fst snd];
      rewrite sendsOf_record; (split; [lia|]); (split; [reflexivity|]);
      (split; [reflexivity|]); (split; [intros j Hj; lia|intros Hc; lia]).
  - cbn [pRetryFrom]. unfold tryCatch.
    destruct (send c params first) as [r|e] eqn:Hsend.
    + exists 1%nat. cbn [fst snd]. rewrite sendsOf_record.
      replace (first + 1 - 1)%nat with first by lia.
      split; [lia|]. split; [reflexivity|]. split; [by rewrite Hsend|].
      split; [intros j Hj; lia|]. intros _. by eexists.
    + cbv beta.
      destruct (IH (S first) (record (Call (SendConverse params first)) tr))
        as (count & Hcount & Hsends & Hout & Hfail & Hok).
      cbv zeta in Hsends, Hout, Hok.
      exists (S count). split; [lia|]. split.
      { rewrite Hsends, sendsOf_record, attempts_cons, <- app_assoc. reflexivity. }
      split.
      { rewrite Hout. f_equal. lia. }
      split.
      { intros [|j] Hj.
        - exists e. by rewrite Nat.add_0_r.
        - destruct (Hfail j) as [e' He']; [lia|]. exists e'.
          by replace (first + S j)%nat with (S first + j)%nat by lia. }
      intros Hc. apply Hok. lia.
Qed.

(** The loop over the content items sends nothing. *)
Lemma content_sends (rt : Runtime) (items : list ContentBlock) (acc : string) (tr : Trace) :
  sendsOf (snd (forOf (contentItem rt) acc items tr)) = sendsOf tr.
Proof.
  revert acc tr. induction items as [|item items IH]; intros acc tr; [reflexivity|].
  cbn [forOf]. unfold bind.
  destruct item as [t|tu|]; cbn [contentItem].
  - destruct (truthy t); unfold ret; apply IH.
  - run. destruct (JSON_stringify rt (input tu)) as [s|e].
    + apply IH.
    + rewrite IH, sendsOf_record, app_nil_r. reflexivity.
  - unfold ret. apply IH.
Qed.

Lemma responseTextOf_sends (rt : Runtime) (response : option ConverseCommandOutput)
    (tr : Trace) :
  sendsOf (snd (responseTextOf rt response tr)) = sendsOf tr
  ∧ ∃ text, fst (responseTextOf rt response tr) = Ok text.
Proof.
  unfold responseTextOf. destruct (messageOf response) as [m|].
  - split; [apply content_sends|].
    destruct (content_total rt (default [] (content m)) "" tr) as (s & tr' & ->).
    by eexists.
  - run. cbn [fst snd]. rewrite sendsOf_record, app_nil_r. split; [reflexivity|by eexists].
Qed.

(** [sendMessage], case by case: the debug line for the schema cannot be
    written and nothing is sent, or the request is sent [count] times. *)
Lemma sendMessage_sends (bot : Bot) (rt : Runtime) (start : Z) (message : string)
    (jsonSchema : option JsonSchema) (tr : Trace) :
  let params := commandParams bot (promptOf bot message) jsonSchema in
  (∃ e tr0,
     sendMessage bot rt start message jsonSchema tr = (Throw e, tr0)
     ∧ sendsOf tr0 = sendsOf tr ∧ ¬ schemaLineWritable bot rt jsonSchema)
  ∨ (∃ count response tr1,
       (1 ≤ count ≤ S (bedrockRetries (options bot)))%nat
       ∧ sendMessage bot rt start message jsonSchema tr = (Ok response, tr1)
       ∧ sendsOf tr1 = (sendsOf tr ++ attempts params 1 count)%list
       ∧ response = match send (client bot) params count with
                    | Ok r => Some r
                    | Throw _ => None
                    end
       ∧ (∀ j, (1 ≤ j < count)%nat → ∃ e, send (client bot) params j = Throw e)
       ∧ ((count ≤ bedrockRetries (options bot))%nat → response ≠ None)
       ∧ schemaLineWritable bot rt jsonSchema).
Proof.
  intros params. unfold sendMessage. fold (promptOf bot message). fold params.
  match goal with
  | |- context [bind ?dbg _ tr] =>
      assert (Hdbg : (∃ tr0, dbg tr = (Ok tt, tr0) ∧ sendsOf tr0 = sendsOf tr
                             ∧ schemaLineWritable bot rt jsonSchema)
                     ∨ (∃ e tr0, dbg tr = (Throw e, tr0) ∧ sendsOf tr0 = sendsOf tr
                                 ∧ ¬ schemaLineWritable bot rt jsonSchema))
  end.
  { unfold schemaLineWritable.
    destruct (debug (options bot)) eqn:Hd.
    2:{ left. eexists. split; [reflexivity|]. split; [reflexivity|]. intros s [=]. }
    destruct jsonSchema as [s|].
    - run. destruct (JSON_stringify rt (schemaDoc s)) as [json|e] eqn:Hjson.
      + left. eexists. split; [reflexivity|].
        rewrite !sendsOf_record, !app_nil_r. split; [reflexivity|].
        intros s' _ [= <-]. eauto.
      + right. eexists _, _. split; [reflexivity|].
        split; [by rewrite sendsOf_record, app_nil_r|].
        intros Hw. destruct (Hw s eq_refl eq_refl) as [json Hj]. congruence.
    - left. run. eexists. split; [reflexivity|].
      split; [by rewrite sendsOf_record, app_nil_r|]. intros s _ [=]. }
  destruct Hdbg as [(tr0 & Hd & Htr0 & Hw)|(e & tr0 & Hd & Htr0 & Hnot)].
  2:{ left. exists e, tr0. unfold bind at 1. rewrite Hd. done. }
  right. unfold bind at 1. rewrite Hd.
  unfold bind at 1. unfold tryCatch at 1. unfold bind at 1. unfold pRetry.
  destruct (pRetryFrom_sends (client bot) params (bedrockRetries (options bot)) 1 tr0)
    as (count & Hcount & Hsends & Hout & Hfail & Hok).
  destruct (pRetryFrom _ 1 _ tr0) as [res tr1]. cbn [fst snd] in *.
  replace (1 + count - 1)%nat with count in Hout by lia.
  exists count. rewrite <- Hout.
  destruct res as [r|e]; run; eexists _, _; (split; [exact Hcount|]);
    (split; [reflexivity|]); rewrite !sendsOf_record, !app_nil_r, Hsends, Htr0;
    (split; [reflexivity|]); (split; [reflexivity|]); (split; [|split; [|exact Hw]]).
  - intros j Hj. destruct (Hfail (j - 1)%nat) as [e He]; [lia|]. exists e.
    by replace (1 + (j - 1))%nat with j in He by lia.
  - done.
  - intros j Hj. destruct (Hfail (j - 1)%nat) as [e' He]; [lia|]. exists e'.
    by replace (1 + (j - 1))%nat with j in He by lia.
  - intros Hc. destruct (Hok Hc) as [r Hr]. discriminate Hr.
Qed.

(** [chat] after [sendMessage] returned: nothing more is sent, and the
    identifiers are those of the response. *)
Lemma chat_after_send (bot : Bot) (rt : Runtime) (message : string)
    (jsonSchema : option JsonSchema) (tr tr1 : Trace)
    (response : option ConverseCommandOutput) :
  truthy message = true →
  sendMessage bot rt (Date_now rt 0) message jsonSchema tr = (Ok response, tr1) →
  ∃ text tr',
    chat bot rt message jsonSchema tr = (Ok (text, newIds response), tr')
    ∧ chat_ bot rt message jsonSchema tr = (Ok (text, newIds response), tr')
    ∧ sendsOf tr' = sendsOf tr1
    ∧ fst (responseTextOf rt response tr1) = Ok text.
Proof.
  intros Hmsg Hsend.
  assert (Hinner : ∃ text tr',
    chat_ bot rt message jsonSchema tr = (Ok (text, newIds response), tr')
    ∧ sendsOf tr' = sendsOf tr1 ∧ fst (responseTextOf rt response tr1) = Ok text).
  { unfold chat_. rewrite Hmsg. cbn [negb].
    unfold bind at 1. rewrite Hsend. unfold bind at 1.
    destruct (responseTextOf_sends rt response tr1) as [Hs [text Ht]].
    destruct (responseTextOf rt response tr1) as [res tr2]. cbn [fst snd] in Hs, Ht.
    subst res. exists text.
    destruct (debug (options bot)); run; eexists; (split; [reflexivity|]);
      rewrite ?sendsOf_record, ?app_nil_r; done. }
  destruct Hinner as (text & tr' & Hchat_ & Hs & Ht).
  exists text, tr'. unfold chat, tryCatch. rewrite Hchat_. done.
Qed.

End BotSends.

Section BotExtras.
Import Bot BotExamples.

(** X1.  An empty message is answered at once: [chat] returns the empty
    text and no identifiers, and the trace is the one it was given, so
    nothing was sent and nothing was written, debug or not. *)
Theorem chat_empty_message_is_silent (bot : Bot) (rt : Runtime) (message : string)
    (jsonSchema : option JsonSchema) (tr : Trace) :
  truthy message = false →
  chat bot rt message jsonSchema tr = (Ok ("", mkIds None None), tr).
Proof.
  intros Hmsg. unfold chat, tryCatch, chat_. by rewrite Hmsg.
Qed.

Lemma chat_empty_message_is_silent_witness :
  chat (botOf down true 5) runtime "" (Some bigSchema) [] = (Ok ("", mkIds None None), []).
Proof.
  apply chat_empty_message_is_silent. reflexivity.
Defined.

(** X2.  Whatever the service does, one call of [chat] sends at most
    [bedrockRetries + 1] times; the sends are numbered from 1 and all carry
    the same request, built from the prompt of the message and the schema. *)
Theorem chat_sends_are_bounded (bot : Bot) (rt : Runtime) (message : string)
    (jsonSchema : option JsonSchema) (tr : Trace) :
  ∃ count,
    (count ≤ S (bedrockRetries (options bot)))%nat
    ∧ sendsOf (snd (chat bot rt message jsonSchema tr))
      = (sendsOf tr
         ++ attempts (commandParams bot (promptOf bot message) jsonSchema) 1 count)%list.
Proof.
  destruct (truthy message) eqn:Hmsg.
  2:{ exists 0%nat. unfold chat, tryCatch, chat_. rewrite Hmsg.
      split; [lia|]. cbn. by rewrite app_nil_r. }
  destruct (sendMessage_sends bot rt (Date_now rt 0) message jsonSchema tr)
    as [(e & tr0 & Hsend & Hs & _)
       |(count & response & tr1 & Hcount & Hsend & Hs & _)].
  - exists 0%nat. split; [lia|]. unfold chat, tryCatch, chat_. rewrite Hmsg. cbn [negb].
    unfold bind at 1. rewrite Hsend. run. cbn [snd].
    rewrite sendsOf_record, Hs. cbn. by rewrite !app_nil_r.
  - exists count. split; [lia|].
    destruct (chat_after_send bot rt message jsonSchema tr tr1 response Hmsg Hsend)
      as (text & tr' & -> & _ & Hs' & _).
    cbn [snd]. by rewrite Hs', Hs.
Qed.

(** X3.  The answer of the first attempt that succeeds is the answer of
    [chat]: when the debug line can be written, the attempts before the
    [k]-th fail with errors after which [p-retry] tries again (no
    [TypeError], no [AbortError]) and the [k]-th succeeds within the budget,
    [chat] returns the identifiers of that response after exactly [k]
    sends. *)
Theorem chat_stops_at_first_success (bot : Bot) (rt : Runtime) (message : string)
    (jsonSchema : option JsonSchema) (tr : Trace) (k : nat) (r : ConverseCommandOutput) :
  let params := commandParams bot (promptOf bot message) jsonSchema in
  truthy message = true →
  schemaLineWritable bot rt jsonSchema →
  (1 ≤ k ≤ S (bedrockRetries (options bot)))%nat →
  (∀ j, (1 ≤ j < k)%nat →
        ∃ e, send (client bot) params j = Throw e ∧ retriedByPRetry e) →
  send (client bot) params k = Ok r →
  ∃ text tr',
    chat bot rt message jsonSchema tr = (Ok (text, newIds (Some r)), tr')
    ∧ sendsOf tr' = (sendsOf tr ++ attempts params 1 k)%list.
Proof.
  intros params Hmsg Hw Hk Hfail Hok.
  destruct (sendMessage_sends bot rt (Date_now rt 0) message jsonSchema tr)
    as [(e & tr0 & _ & _ & Hnot)
       |(count & response & tr1 & Hcount & Hsend & Hs & Hresp & Hbefore & Hsome & _)];
    [done|]. fold params in Hs, Hresp, Hbefore.
  assert (count = k) as ->.
  { destruct (lt_eq_lt_dec count k) as [[Hlt|Heq]|Hgt]; [|done|].
    - destruct (Hfail count) as [e [He _]]; [lia|]. rewrite He in Hresp.
      exfalso. apply Hsome; [lia|done].
    - destruct (Hbefore k) as [e He]; [lia|]. congruence. }
  rewrite Hok in Hresp. subst response.
  destruct (chat_after_send bot rt message jsonSchema tr tr1 (Some r) Hmsg Hsend)
    as (text & tr' & Hchat & _ & Hs' & _).
  exists text, tr'. split; [exact Hchat|]. by rewrite Hs', Hs.
Qed.

Lemma chat_stops_at_first_success_witness :
  ∃ text tr',
    chat (botOf (flaky [TextMember "fine."]) true 5) runtime "Explain X" (Some schema) []
    = (Ok (text, mkIds (Some "req-1") None), tr')
    ∧ length (sendsOf tr') = 3%nat.
Proof.
  destruct (chat_stops_at_first_success (botOf (flaky [TextMember "fine."]) true 5)
              runtime "Explain X" (Some schema) [] 3 (response [TextMember "fine."]))
    as (text & tr' & Hchat & Hs).
  - reflexivity.
  - intros s _ [= <-]. eexists. vm_compute. reflexivity.
  - cbn. lia.
  - intros j Hj. exists serviceDown. cbn.
    destruct (Nat.leb_spec j 2); [|lia]. split; [reflexivity|]. split; discriminate.
  - reflexivity.
  - exists text, tr'. split; [exact Hchat|]. rewrite Hs. reflexivity.
Defined.

(** X4.  When the debug line can be written and every attempt within the
    budget fails with an error after which [p-retry] tries again (no
    [TypeError], no [AbortError]), [chat] gives up after exactly
    [bedrockRetries + 1] sends and returns the empty text and no
    identifiers. *)
Theorem chat_gives_up_after_budget (bot : Bot) (rt : Runtime) (message : string)
    (jsonSchema : option JsonSchema) (tr : Trace) :
  let params := commandParams bot (promptOf bot message) jsonSchema in
  truthy message = true →
  schemaLineWritable bot rt jsonSchema →
  (∀ j, (1 ≤ j ≤ S (bedrockRetries (options bot)))%nat →
        ∃ e, send (client bot) params j = Throw e ∧ retriedByPRetry e) →
  ∃ tr',
    chat bot rt message jsonSchema tr = (Ok ("", mkIds None None), tr')
    ∧ sendsOf tr' = (sendsOf tr ++ attempts params 1 (S (bedrockRetries (options bot))))%list.
Proof.
  intros params Hmsg Hw Hfail.
  destruct (sendMessage_sends bot rt (Date_now rt 0) message jsonSchema tr)
    as [(e & tr0 & _ & _ & Hnot)
       |(count & response & tr1 & Hcount & Hsend & Hs & Hresp & _ & Hsome & _)];
    [done|]. fold params in Hs, Hresp.
  destruct (Hfail count) as [e [He _]]; [lia|]. rewrite He in Hresp. subst response.
  assert (count = S (bedrockRetries (options bot))) as ->.
  { destruct (le_lt_dec count (bedrockRetries (options bot))) as [Hle|Hgt]; [|lia].
    exfalso. by apply Hsome. }
  destruct (chat_after_send bot rt message jsonSchema tr tr1 None Hmsg Hsend)
    as (text & tr' & Hchat & _ & Hs' & Htext).
  assert (text = "") as ->.
  { unfold responseTextOf in Htext. cbn in Htext. congruence. }
  exists tr'. split; [exact Hchat|]. by rewrite Hs', Hs.
Qed.

Lemma chat_gives_up_after_budget_witness :
  ∃ tr',
    chat (botOf (flaky [TextMember "fine."]) false 1) runtime "Explain X" None []
    = (Ok ("", mkIds None None), tr')
    ∧ length (sendsOf tr') = 2%nat.
Proof.
  destruct (chat_gives_up_after_budget (botOf (flaky [TextMember "fine."]) false 1)
              runtime "Explain X" None [])
    as (tr' & Hchat & Hs).
  - reflexivity.
  - intros s [=].
  - intros j Hj. exists serviceDown. cbn in Hj |- *.
    destruct (Nat.leb_spec j 2); [|lia]. split; [reflexivity|]. split; discriminate.
  - exists tr'. split; [exact Hchat|]. rewrite Hs. reflexivity.
Defined.

(** X5.  The only exception that leaves [chat_] is the serialization of the
    schema for the debug line: [chat_] throws exactly when the message is
    not empty, [debug] is on and the schema given does not serialize.  In
    particular, with [debug] off the [catch] of [chat] is never entered. *)
Theorem chat__throws_only_on_schema_line (bot : Bot) (rt : Runtime) (message : string)
    (jsonSchema : option JsonSchema) (tr : Trace) :
  (∃ e tr', chat_ bot rt message jsonSchema tr = (Throw e, tr'))
  ↔ truthy message = true
    ∧ debug (options bot) = true
    ∧ ∃ s e, jsonSchema = Some s ∧ JSON_stringify rt (schemaDoc s) = Throw e.
Proof.
  split.
  - intros (e & tr' & Hthrow).
    destruct (truthy message) eqn:Hmsg.
    2:{ unfold chat_ in Hthrow. rewrite Hmsg in Hthrow. discriminate Hthrow. }
    split; [reflexivity|].
    destruct (sendMessage_sends bot rt (Date_now rt 0) message jsonSchema tr)
      as [(e0 & tr0 & _ & _ & Hnot)|(count & response & tr1 & _ & Hsend & _)].
    + unfold schemaLineWritable in Hnot.
      destruct (debug (options bot)); [|exfalso; apply Hnot; intros s [=]].
      split; [reflexivity|].
      destruct jsonSchema as [s|]; [|exfalso; apply Hnot; intros s _ [=]].
      destruct (JSON_stringify rt (schemaDoc s)) as [json|e1] eqn:Hjson; [|eauto].
      exfalso. apply Hnot. intros s' _ [= <-]. eauto.
    + destruct (chat_after_send bot rt message jsonSchema tr tr1 response Hmsg Hsend)
        as (text & tr2 & _ & Hchat_ & _). congruence.
  - intros (Hmsg & Hd & s & e & -> & Hjson).
    unfold chat_, sendMessage. rewrite Hmsg, Hd. run. rewrite Hjson. eauto.
Qed.

Lemma chat__throws_only_on_schema_line_witness :
  ∃ e tr', chat_ (botOf (answering []) true 0) runtime "hi" (Some bigSchema) []
           = (Throw e, tr').
Proof.
  apply (proj2 (chat__throws_only_on_schema_line (botOf (answering []) true 0) runtime
                  "hi" (Some bigSchema) [])).
  split; [reflexivity|]. split; [reflexivity|].
  exists bigSchema, (mkError "TypeError" "Do not know how to serialize a BigInt").
  split; reflexivity.
Defined.

Lemma content_without_tool (rt : Runtime) (items : list ContentBlock) (acc : string)
    (tr : Trace) :
  forallb (λ item, negb (isToolUse item)) items = true →
  forOf (contentItem rt) acc items tr
  = (Ok (acc +:+ concatenation (fragments items)), tr).
Proof.
  revert acc. induction items as [|item items IH]; intros acc Hno.
  - cbn. by rewrite append_empty_r.
  - cbn [forallb] in Hno. apply andb_true_iff in Hno as [Hitem Hno].
    cbn [forOf]. unfold bind. destruct item as [t|tu|]; [|discriminate Hitem|].
    + rewrite contentItem_text, IH by done.
      cbn [fragments concatenation foldr]. by rewrite append_assoc.
    + cbn [contentItem]. unfold ret. rewrite IH by done. reflexivity.
Qed.

Lemma contentItem_serialized (rt : Runtime) (acc : string) (tu : ToolUseBlock) (tr : Trace) :
  ∃ tr', contentItem rt acc (ToolUseMember tu) tr = (Ok (serialized rt tu), tr').
Proof.
  cbn [contentItem]. unfold serialized. run.
  destruct (JSON_stringify rt (input tu)); by eexists.
Qed.

(** X6.  When the content of the response holds no tool-call item, the text
    [chat] returns is the concatenation of the fragments of its text items
    in their order: the items of other kinds (images, documents, ...) and a
    missing content add nothing. *)
Theorem content_without_tool_call_is_its_text (bot : Bot) (rt : Runtime)
    (message : string) (jsonSchema : option JsonSchema) (tr tr1 : Trace)
    (r : ConverseCommandOutput) (m : Message) :
  truthy message = true →
  sendMessage bot rt (Date_now rt 0) message jsonSchema tr = (Ok (Some r), tr1) →
  messageOf (Some r) = Some m →
  forallb (λ item, negb (isToolUse item)) (default [] (content m)) = true →
  ∃ tr', chat bot rt message jsonSchema tr
         = (Ok (concatenation (fragments (default [] (content m))), newIds (Some r)), tr').
Proof.
  intros Hmsg Hsend Hm Hno.
  eapply chat_of_response; eauto. by apply content_without_tool.
Qed.

Lemma content_without_tool_call_is_its_text_witness :
  ∃ tr', chat (botOf (answering [TextMember "Looks "; OtherMember; TextMember "fine."])
                 false 0) runtime "Explain X" None []
         = (Ok ("Looks fine.", mkIds (Some "req-1") None), tr').
Proof.
  eapply (content_without_tool_call_is_its_text _ runtime "Explain X" None [] _
            (response [TextMember "Looks "; OtherMember; TextMember "fine."])
            {| role := "assistant";
               content := Some [TextMember "Looks "; OtherMember; TextMember "fine."] |});
    vm_compute; reflexivity.
Defined.

(** X7.  The last tool-call item decides the text: when no tool-call item
    follows it and [JSON.stringify] of its input returns a string [s], or
    throws, in which case [s] is the empty string, the text [chat] returns
    is [s] followed by the fragments of the text items after it; nothing
    of what precedes it is kept.  (An item without an input, for which
    [JSON.stringify] returns [undefined], is not covered.) *)
Theorem last_tool_call_decides_the_text (bot : Bot) (rt : Runtime) (message : string)
    (jsonSchema : option JsonSchema) (tr tr1 : Trace) (r : ConverseCommandOutput)
    (m : Message) (pre post : list ContentBlock) (tu : ToolUseBlock) (s : string) :
  truthy message = true →
  sendMessage bot rt (Date_now rt 0) message jsonSchema tr = (Ok (Some r), tr1) →
  messageOf (Some r) = Some m →
  content m = Some (pre ++ ToolUseMember tu :: post)%list →
  forallb (λ item, negb (isToolUse item)) post = true →
  JSON_stringify rt (input tu) = Ok s
  ∨ (s = "" ∧ ∃ e, JSON_stringify rt (input tu) = Throw e) →
  ∃ tr', chat bot rt message jsonSchema tr
         = (Ok (s +:+ concatenation (fragments post), newIds (Some r)), tr').
Proof.
  intros Hmsg Hsend Hm Hc Hno Hs.
  assert (serialized rt tu = s) as <-.
  { unfold serialized. destruct Hs as [-> | (-> & e & ->)]; reflexivity. }
  destruct (content_total rt pre "" tr1) as (a & tr2 & Hpre).
  destruct (contentItem_serialized rt a tu tr2) as [tr3 Htool].
  assert (Hloop : forOf (contentItem rt) "" (default [] (content m)) tr1
                  = (Ok (serialized rt tu +:+ concatenation (fragments post)), tr3)).
  { rewrite Hc. change (default [] (Some ?l)) with l.
    rewrite forOf_app. unfold bind. rewrite Hpre. cbn [forOf]. unfold bind.
    rewrite Htool. by apply content_without_tool. }
  eapply chat_of_response; eauto.
Qed.

Lemma last_tool_call_decides_the_text_witness :
  (∃ tr', chat (botOf (answering [tool (DNum 1); TextMember "draft"; tool (DNum 42);
                                   OtherMember; TextMember " is the answer"]) false 0)
            runtime "Explain X" None []
          = (Ok ("42 is the answer", mkIds (Some "req-1") None), tr'))
  ∧ ∃ tr', chat (botOf (answering [tool (DNum 1); tool circularInput;
                                    TextMember "left over"]) false 0)
             runtime "Explain X" None []
           = (Ok ("left over", mkIds (Some "req-1") None), tr').
Proof.
  split.
  - eapply (last_tool_call_decides_the_text _ runtime "Explain X" None [] _
              (response [tool (DNum 1); TextMember "draft"; tool (DNum 42);
                         OtherMember; TextMember " is the answer"])
              _ [tool (DNum 1); TextMember "draft"] [OtherMember; TextMember " is the answer"]
              {| toolUseId := Some "t1"; toolUse_name := Some "review"; input := DNum 42 |}
              "42");
      try (vm_compute; reflexivity).
    left. reflexivity.
  - eapply (last_tool_call_decides_the_text _ runtime "Explain X" None [] _
              (response [tool (DNum 1); tool circularInput; TextMember "left over"])
              _ [tool (DNum 1)] [TextMember "left over"]
              {| toolUseId := Some "t1"; toolUse_name := Some "review";
                 input := circularInput |}
              "");
      try (vm_compute; reflexivity).
    right. split; [reflexivity|]. eexists. reflexivity.
Defined.

(** X8.  When [sendMessage] ends with no response, or with a response that
    has no message, [chat] returns the empty text with the identifiers of
    the response (none when there is no response) and warns that the
    response is null. *)
Theorem response_without_message_is_empty (bot : Bot) (rt : Runtime) (message : string)
    (jsonSchema : option JsonSchema) (tr tr1 : Trace)
    (response : option ConverseCommandOutput) :
  truthy message = true →
  sendMessage bot rt (Date_now rt 0) message jsonSchema tr = (Ok response, tr1) →
  messageOf response = None →
  ∃ tr', chat bot rt message jsonSchema tr = (Ok ("", newIds response), tr')
         ∧ In (Warning "bedrock response is null") tr'.
Proof.
  intros Hmsg Hsend Hm. unfold chat, tryCatch, chat_. rewrite Hmsg. cbn [negb].
  unfold bind at 1. rewrite Hsend. unfold bind at 1. unfold responseTextOf.
  rewrite Hm. run. unfold record.
  destruct (debug (options bot)); eexists; (split; [reflexivity|]);
    rewrite ?in_app_iff; cbn [In]; auto.
Qed.

Lemma response_without_message_is_empty_witness :
  ∃ tr', chat (botOf (replying bareResponse) true 0) runtime "Explain X" None []
         = (Ok ("", mkIds (Some "req-2") (Some "cf-2")), tr')
         ∧ In (Warning "bedrock response is null") tr'.
Proof.
  eapply (response_without_message_is_empty (botOf (replying bareResponse) true 0)
            runtime "Explain X" None [] _ (Some bareResponse));
    vm_compute; reflexivity.
Defined.

End BotExtras.

(** ** Further properties of the SOP retriever *)

Section RetrieverCalls.
Import SopRetriever SopExamples.

Lemma callsOf_snoc (tr : list (Event Outside)) (ev : Event Outside) :
  callsOf (tr ++ [ev])%list
  = (callsOf tr ++ match ev with
                   | Call c => [c]
                   | _ => []
                   end)%list.
Proof. unfold callsOf. rewrite flat_map_app. simpl. by rewrite app_nil_r. Qed.

Lemma prefix_spec (p s : string) :
  String.prefix p s = true ↔ ∃ rest, s = p +:+ rest.
Proof.
  revert s. induction p as [|c p IH]; intros s.
  - split; [intros _; by exists s|]. intros _. by destruct s.
  - destruct s as [|d s]; cbn [String.prefix].
    + split; [discriminate|]. intros [rest Hrest]. discriminate Hrest.
    + destruct (ascii_dec c d) as [->|Hcd].
      * rewrite IH. split; intros [rest Hrest]; exists rest.
        -- by rewrite append_cons, <- Hrest.
        -- rewrite append_cons in Hrest. by injection Hrest.
      * split; [discriminate|]. intros [rest Hrest].
        rewrite append_cons in Hrest. injection Hrest as -> _. done.
Qed.

(** [beforeDot] splits a string at its first dot. *)
Lemma beforeDot_spec (s p r : string) :
  beforeDot s = (p, r) →
  s = p +:+ r ∧ dotless p = true ∧ (r = "" ∨ ∃ r', r = String "."%char r').
Proof.
  revert p r. induction s as [|c s IH]; intros p r; cbn [beforeDot].
  - intros [= <- <-]. auto.
  - destruct (Ascii.eqb_spec c "."%char) as [->|Hc].
    + intros [= <- <-]. split; [reflexivity|]. split; [reflexivity|]. right. by eexists.
    + destruct (beforeDot s) as [p' r']. intros [= <- <-].
      destruct (IH p' r' eq_refl) as (-> & Hp & Hr).
      split; [reflexivity|]. split; [|exact Hr].
      cbn [dotless]. rewrite Hp. by destruct (Ascii.eqb_spec c "."%char).
Qed.

Lemma beforeDot_dotless (g rest : string) :
  dotless g = true → beforeDot (g +:+ String "."%char rest) = (g, String "."%char rest).
Proof.
  induction g as [|c g IH]; intros Hg; [reflexivity|].
  cbn [dotless] in Hg. apply andb_true_iff in Hg as [Hc Hg].
  rewrite append_cons. cbn [beforeDot].
  destruct (Ascii.eqb c "."%char); [discriminate Hc|]. by rewrite IH.
Qed.

Lemma initializePinecone_calls (env : Env) (st : State) :
  ∃ calls,
    callsOf (trace (snd (initializePinecone env st))) = (callsOf (trace st) ++ calls)%list
    ∧ forallb (λ c, negb (isQuery c)) calls = true.
Proof.
  unfold initializePinecone. run.
  destruct (pineconeClient st); [exists []; by rewrite app_nil_r|].
  destruct (negb _); [exists []; by rewrite app_nil_r|].
  destruct (newPinecone env _) as [c|e];
    [destruct (index c _) as [i|e]|];
    cbn [snd trace record set_pineconeClient set_pineconeIndex];
    rewrite !callsOf_snoc, !app_nil_r, <- ?app_assoc;
    eexists; (split; [reflexivity|reflexivity]).
Qed.

Lemma embedText_calls (env : Env) (text : string) (st : State) :
  ∃ calls,
    callsOf (trace (snd (embedText env text st))) = (callsOf (trace st) ++ calls)%list
    ∧ forallb (λ c, negb (isQuery c)) calls = true.
Proof.
  unfold embedText, initializeEmbedder. run.
  destruct (embedder st) as [emb|] eqn:Hemb.
  - cbn [embedder]. rewrite Hemb.
    destruct (run emb text) as [out|e];
      [destruct (vectorOf out) as [v|e]; [destruct (length v =? 384)%nat|]|];
      cbn [negb snd trace record];
      rewrite !callsOf_snoc, ?app_nil_r, <- ?app_assoc;
      eexists; (split; [reflexivity|reflexivity]).
  - destruct (pipeline env _ _) as [emb|e].
    + cbn [embedder record set_embedder].
      destruct (run emb text) as [out|e];
        [destruct (vectorOf out) as [v|e]; [destruct (length v =? 384)%nat|]|];
        cbn [negb snd trace record set_embedder];
        rewrite !callsOf_snoc, ?app_nil_r, <- ?app_assoc;
        eexists; (split; [reflexivity|reflexivity]).
    + cbn [snd trace record]. rewrite !callsOf_snoc, ?app_nil_r, <- ?app_assoc.
      eexists; (split; [reflexivity|reflexivity]).
Qed.

End RetrieverCalls.

Section RetrieverExtras.
Import SopRetriever SopExamples.

(** X9.  The pattern [/^([^.]+)\.svc\./] on a host: there is a match
    exactly when the host is a non-empty dotless segment followed by
    [.svc.], and the group is that segment. *)
Theorem hostMatch_is_the_first_segment (host g : string) :
  hostMatch host = Some g
  ↔ g ≠ "" ∧ dotless g = true ∧ ∃ rest, host = g +:+ ".svc." +:+ rest.
Proof.
  unfold hostMatch. split.
  - destruct (beforeDot host) as [p r] eqn:Hsplit.
    destruct (beforeDot_spec _ _ _ Hsplit) as (-> & Hp & _).
    destruct (truthy p) eqn:Htruthy; [|discriminate].
    destruct (String.prefix ".svc." r) eqn:Hprefix; [|discriminate].
    cbn [andb]. intros [= <-]. apply prefix_spec in Hprefix as [rest ->].
    split; [by destruct p|]. split; [exact Hp|]. by exists rest.
  - intros (Hne & Hg & rest & ->).
    change (".svc." +:+ rest) with (String "."%char ("svc." +:+ rest)).
    rewrite beforeDot_dotless by done.
    destruct g as [|c g]; [done|]. cbn [truthy andb].
    rewrite (proj2 (prefix_spec ".svc." (String "."%char ("svc." +:+ rest))));
      [reflexivity|by exists rest].
Qed.

Lemma hostMatch_is_the_first_segment_witness :
  hostMatch host = Some "sop-embeddings-2vib48a" ∧ hostMatch "a.b.svc.pinecone.io" = None.
Proof.
  split.
  - apply hostMatch_is_the_first_segment.
    split; [discriminate|]. split; [reflexivity|].
    by exists "aped-4627-b74a.pinecone.io".
  - reflexivity.
Defined.

(** X10.  The name of the index: the input [pinecone_index] when it is
    set; otherwise the first segment of the host when the host has the form
    [segment.svc.rest]; otherwise [sop-embeddings].  It is never empty. *)
Theorem index_name_resolution (env : Env) (host : string) :
  (getInput env "pinecone_index" ≠ ""
   → resolveIndexName env host = getInput env "pinecone_index")
  ∧ (getInput env "pinecone_index" = ""
     → ∀ g rest, g ≠ "" → dotless g = true → host = g +:+ ".svc." +:+ rest
                 → resolveIndexName env host = g)
  ∧ (getInput env "pinecone_index" = "" → hostMatch host = None
     → resolveIndexName env host = "sop-embeddings")
  ∧ resolveIndexName env host ≠ "".
Proof.
  unfold resolveIndexName. repeat split.
  - intros Hname. destruct (getInput env "pinecone_index"); [done|reflexivity].
  - intros -> g rest Hne Hg ->. cbn [truthy negb andb].
    destruct g as [|c g]; [done|]. rewrite append_cons. cbn [truthy].
    rewrite <- append_cons. unfold hostMatch.
    change (".svc." +:+ rest) with (String "."%char ("svc." +:+ rest)).
    rewrite beforeDot_dotless by done. cbn [truthy andb].
    rewrite (proj2 (prefix_spec ".svc." (String "."%char ("svc." +:+ rest))));
      [reflexivity|by exists rest].
  - intros -> ->. cbn [truthy negb andb]. by destruct (truthy host).
  - destruct (getInput env "pinecone_index") as [|c name]; [|done].
    cbn [truthy negb andb].
    destruct (truthy host); [|done].
    destruct (hostMatch host) as [g|] eqn:Hg; [|done].
    unfold hostMatch in Hg. destruct (beforeDot host) as [p r].
    destruct p; [discriminate Hg|].
    destruct (truthy _ && _); [|discriminate Hg]. by injection Hg as <-.
Qed.

Lemma index_name_resolution_witness :
  resolveIndexName healthy host = "sop-embeddings-2vib48a"
  ∧ resolveIndexName healthy "localhost" = "sop-embeddings".
Proof.
  split.
  - apply (proj1 (proj2 (index_name_resolution healthy host))
             eq_refl "sop-embeddings-2vib48a" "aped-4627-b74a.pinecone.io");
      [discriminate|reflexivity|reflexivity].
  - apply (proj1 (proj2 (proj2 (index_name_resolution healthy "localhost"))));
      reflexivity.
Defined.

(** X11.  A first initialization with a credential, when the constructor
    and [index] succeed: the client and the index handle are stored, the
    encoder is left alone, and the outside was called exactly twice, to
    construct the client with the credential and to open the resolved
    index. *)
Theorem initialization_stores_client_and_index (env : Env) (st : State)
    (c : Pinecone) (i : Index) :
  let apiKey := getInput env "pinecone_api_key" in
  let indexName := resolveIndexName env (getInput env "pinecone_host") in
  pineconeClient st = None →
  truthy apiKey = true →
  newPinecone env apiKey = Ok c →
  index c indexName = Ok i →
  ∃ st',
    initializePinecone env st = (Ok tt, st')
    ∧ pineconeClient st' = Some c ∧ pineconeIndex st' = Some i
    ∧ embedder st' = embedder st
    ∧ callsOf (trace st')
      = (callsOf (trace st) ++ [NewPinecone apiKey; OpenIndex indexName])%list.
Proof.
  intros apiKey indexName Hclient Hkey Hc Hi.
  unfold initializePinecone. run. rewrite Hclient. fold apiKey indexName.
  rewrite Hkey. cbn [negb]. rewrite Hc, Hi.
  eexists. split; [reflexivity|]. repeat split.
  cbn [trace record set_pineconeClient set_pineconeIndex].
  rewrite !callsOf_snoc, !app_nil_r, <- app_assoc. reflexivity.
Qed.

Lemma initialization_stores_client_and_index_witness :
  ∃ st',
    initializePinecone healthy initial = (Ok tt, st')
    ∧ pineconeClient st' = Some (clientOf (seeded candidates))
    ∧ pineconeIndex st' = Some (seeded candidates)
    ∧ embedder st' = None
    ∧ callsOf (trace st') = [NewPinecone "pc-key"; OpenIndex "sop-embeddings-2vib48a"].
Proof.
  apply (initialization_stores_client_and_index healthy initial
           (clientOf (seeded candidates)) (seeded candidates)); reflexivity.
Defined.

(** X12.  The index client is constructed at most once: after an
    initialization that returned, every further initialization, whatever the
    inputs and the constructor then are, returns at once and leaves the
    state as it is. *)
Theorem initialization_happens_once (env : Env) (st st1 : State) :
  initializePinecone env st = (Ok tt, st1) →
  ∀ env2, initializePinecone env2 st1 = (Ok tt, st1).
Proof.
  intros Hinit env2.
  assert (Hset : pineconeClient st1 ≠ None).
  { revert Hinit. unfold initializePinecone. run.
    destruct (pineconeClient st) as [c|] eqn:Hclient; [intros [= <-]; congruence|].
    destruct (negb _); [discriminate|].
    destruct (newPinecone env _) as [c|e]; [|discriminate].
    destruct (index c _) as [i|e]; [|discriminate].
    intros [= <-]. discriminate. }
  unfold initializePinecone. run.
  destruct (pineconeClient st1); [reflexivity|done].
Qed.

Lemma initialization_happens_once_witness :
  initializePinecone noCredential (snd (initializePinecone healthy initial))
  = (Ok tt, snd (initializePinecone healthy initial)).
Proof.
  apply (initialization_happens_once healthy initial). reflexivity.
Defined.

(** X13.  When the constructor succeeds and [index] throws, the error is
    thrown to the caller, and the client stays stored without an index
    handle: retrieval is disabled. *)
Theorem failed_index_disables_retrieval (env : Env) (st : State) (c : Pinecone)
    (e : Error) :
  let apiKey := getInput env "pinecone_api_key" in
  let indexName := resolveIndexName env (getInput env "pinecone_host") in
  pineconeClient st = None →
  pineconeIndex st = None →
  truthy apiKey = true →
  newPinecone env apiKey = Ok c →
  index c indexName = Throw e →
  ∃ st', initializePinecone env st = (Throw e, st') ∧ disabled st'.
Proof.
  intros apiKey indexName Hclient Hindex Hkey Hc Hi.
  unfold initializePinecone. run. rewrite Hclient. fold apiKey indexName.
  rewrite Hkey. cbn [negb]. rewrite Hc, Hi.
  eexists. split; [reflexivity|]. split; [discriminate|exact Hindex].
Qed.

Lemma failed_index_disables_retrieval_witness :
  ∃ st', initializePinecone {| getInput := inputs "pc-key" host "";
                               pipeline := λ _ _, Ok encoder;
                               newPinecone := λ _, Ok brokenClient |} initial
         = (Throw noSuchIndex, st')
         ∧ disabled st'.
Proof.
  apply (failed_index_disables_retrieval _ initial brokenClient noSuchIndex);
    reflexivity.
Defined.

(** X14.  Disabled retrieval stays disabled: in a state with a client and
    no index handle, every retrieval, whatever the environment and the text,
    returns the empty list without a call to the outside (no new attempt to
    open the index, no embedding), and leaves the state disabled. *)
Theorem disabled_retrieval_stays_disabled (env : Env) (diffChunk : string) (st : State) :
  disabled st →
  ∃ st',
    getRelevantSops env diffChunk st = (Ok [], st')
    ∧ disabled st'
    ∧ embedder st' = embedder st
    ∧ callsOf (trace st') = callsOf (trace st).
Proof.
  intros [Hclient Hindex]. rewrite getRelevantSops_steps.
  assert (Hinit : initializePinecone env st = (Ok tt, st)).
  { unfold initializePinecone. run. destruct (pineconeClient st); [reflexivity|done]. }
  rewrite Hinit, Hindex. eexists. split; [reflexivity|].
  split; [split; assumption|]. split; [reflexivity|].
  cbn [trace record]. by rewrite callsOf_snoc, app_nil_r.
Qed.

Lemma disabled_retrieval_stays_disabled_witness :
  ∃ st',
    getRelevantSops healthy "fix null pointer" halfInitialized = (Ok [], st')
    ∧ disabled st'
    ∧ embedder st' = None
    ∧ callsOf (trace st') = [].
Proof.
  apply (disabled_retrieval_stays_disabled healthy "fix null pointer" halfInitialized).
  split; [discriminate|reflexivity].
Defined.

(** X15.  When the constructor of the client throws, the error is thrown
    to the caller after one call to the constructor and none to [index],
    and no client is stored; the next initialization with a credential
    calls the constructor again. *)
Theorem failed_constructor_is_retried (env : Env) (st : State) (e : Error) :
  let apiKey := getInput env "pinecone_api_key" in
  pineconeClient st = None →
  truthy apiKey = true →
  newPinecone env apiKey = Throw e →
  ∃ st',
    initializePinecone env st = (Throw e, st')
    ∧ pineconeClient st' = None ∧ pineconeIndex st' = pineconeIndex st
    ∧ callsOf (trace st') = (callsOf (trace st) ++ [NewPinecone apiKey])%list
    ∧ ∀ env2,
        truthy (getInput env2 "pinecone_api_key") = true →
        ∃ more,
          callsOf (trace (snd (initializePinecone env2 st')))
          = (callsOf (trace st')
             ++ NewPinecone (getInput env2 "pinecone_api_key") :: more)%list.
Proof.
  intros apiKey Hclient Hkey Hc.
  unfold initializePinecone at 1. run. rewrite Hclient. fold apiKey.
  rewrite Hkey. cbn [negb]. rewrite Hc.
  eexists. split; [reflexivity|]. split; [exact Hclient|]. split; [reflexivity|].
  split.
  { cbn [trace record]. by rewrite !callsOf_snoc, !app_nil_r. }
  intros env2 Hkey2. unfold initializePinecone. run. cbn [pineconeClient record].
  rewrite Hclient, Hkey2. cbn [negb].
  destruct (newPinecone env2 _) as [c2|e2].
  - destruct (index c2 _) as [i2|e2]; eexists;
      cbn [snd trace record set_pineconeClient set_pineconeIndex];
      rewrite !callsOf_snoc, !app_nil_r, <- ?app_assoc; reflexivity.
  - exists []. cbn [snd trace record]. by rewrite !callsOf_snoc, !app_nil_r.
Qed.

Lemma failed_constructor_is_retried_witness :
  ∃ st',
    initializePinecone {| getInput := inputs "pc-key" host "";
                          pipeline := λ _ _, Ok encoder;
                          newPinecone := λ _, Throw unreachable |} initial
    = (Throw unreachable, st')
    ∧ pineconeClient st' = None
    ∧ callsOf (trace (snd (initializePinecone healthy st')))
      = [NewPinecone "pc-key"; NewPinecone "pc-key"; OpenIndex "sop-embeddings-2vib48a"].
Proof.
  destruct (failed_constructor_is_retried
              {| getInput := inputs "pc-key" host "";
                 pipeline := λ _ _, Ok encoder;
                 newPinecone := λ _, Throw unreachable |} initial unreachable)
    as (st' & Hinit & Hclient & _ & _ & _); [reflexivity..|].
  exists st'. split; [exact Hinit|]. split; [exact Hclient|].
  injection Hinit as <-. reflexivity.
Defined.

(** X16.  The encoder is constructed at most once: when one is stored,
    [embedText] keeps it and calls the outside exactly once, to run it on
    the text; the [pipeline] factory is not called, whatever it would do. *)
Theorem stored_encoder_is_reused (env : Env) (text : string) (st : State)
    (emb : Embedder) :
  embedder st = Some emb →
  embedder (snd (embedText env text st)) = Some emb
  ∧ callsOf (trace (snd (embedText env text st)))
    = (callsOf (trace st) ++ [RunEmbedder text])%list.
Proof.
  intros Hemb. unfold embedText, initializeEmbedder. run. rewrite Hemb.
  cbn [embedder]. rewrite Hemb.
  destruct (run emb text) as [out|e];
    [destruct (vectorOf out) as [v|e]; [destruct (length v =? 384)%nat|]|];
    cbn [negb snd embedder trace record]; (split; [exact Hemb|]);
    rewrite !callsOf_snoc, ?app_nil_r; reflexivity.
Qed.

Lemma stored_encoder_is_reused_witness :
  let warm := snd (embedText healthy "first" initial) in
  embedder (snd (embedText noEncoder "second" warm)) = Some encoder
  ∧ callsOf (trace (snd (embedText noEncoder "second" warm)))
    = [LoadPipeline "feature-extraction" "Xenova/all-MiniLM-L6-v2";
       RunEmbedder "first"; RunEmbedder "second"].
Proof.
  apply (stored_encoder_is_reused noEncoder "second"
           (snd (embedText healthy "first" initial)) encoder).
  reflexivity.
Defined.

(** X17.  A vector of the wrong dimension is a soft fault: when the encoder
    in use (the stored one, or the one a first call constructs) returns an
    output that converts to a vector, [embedText] returns that vector
    unchanged whatever its length, and writes the dimension warning exactly
    when the length is not 384. *)
Theorem vector_is_returned_whatever_its_length (env : Env) (text : string) (st : State)
    (emb : Embedder) (out : EmbedOutput) (v : list number) :
  embedder st = Some emb
  ∨ (embedder st = None
     ∧ pipeline env "feature-extraction" "Xenova/all-MiniLM-L6-v2" = Ok emb) →
  run emb text = Ok out →
  vectorOf out = Ok v →
  ∃ st' setup,
    embedText env text st = (Ok v, st')
    ∧ embedder st' = Some emb
    ∧ trace st'
      = (trace st ++ setup ++ Call (RunEmbedder text) :: dimensionWarning v)%list.
Proof.
  intros Hin Hrun Hv. unfold embedText, initializeEmbedder, dimensionWarning. run.
  destruct Hin as [Hemb|[Hemb Hpipe]]; rewrite Hemb.
  - cbn [embedder]. rewrite Hemb, Hrun, Hv.
    destruct (length v =? 384)%nat; cbn [negb]; eexists _, [];
      (split; [reflexivity|]); (split; [exact Hemb|]);
      cbn [trace record app]; rewrite <- ?app_assoc; reflexivity.
  - rewrite Hpipe. cbn [embedder record set_embedder]. rewrite Hrun, Hv.
    destruct (length v =? 384)%nat; cbn [negb];
      eexists _, [_; _; _];
      (split; [reflexivity|]); (split; [reflexivity|]);
      cbn [trace record set_embedder app]; rewrite <- ?app_assoc; reflexivity.
Qed.

Lemma vector_is_returned_whatever_its_length_witness :
  ∃ st' setup,
    embedText {| getInput := inputs "pc-key" host "";
                 pipeline := λ _ _, Ok shortEncoder;
                 newPinecone := λ _, Ok (clientOf offline) |} "fix null pointer" initial
    = (Ok [Num (1 # 2) eq_refl; Num (1 # 2) eq_refl; Num (1 # 2) eq_refl], st')
    ∧ embedder st' = Some shortEncoder
    ∧ trace st'
      = (trace initial ++ setup
         ++ [Call (RunEmbedder "fix null pointer");
             Warning "Expected 384-dimensional vector, got 3 dimensions"])%list.
Proof.
  apply (vector_is_returned_whatever_its_length _ "fix null pointer" initial shortEncoder
           (PlainArray [Num (1 # 2) eq_refl; Num (1 # 2) eq_refl; Num (1 # 2) eq_refl])).
  - right. split; reflexivity.
  - reflexivity.
  - reflexivity.
Defined.

(** X18.  Every failure of [embedText] is written and rethrown: when it
    throws, the last line of the trace is the warning with the message of
    the error, and the error is the one of the construction of the encoder,
    of the run of the encoder, or of the conversion of its output.  The
    error [Embedder not initialized] of line 83 is never the cause. *)
Theorem embedding_failure_is_logged_and_rethrown (env : Env) (text : string)
    (st st' : State) (e : Error) :
  embedText env text st = (Throw e, st') →
  (∃ tr0, trace st' = (tr0 ++ [Warning ("Failed to embed text: " +:+ message e)])%list)
  ∧ ((embedder st = None
      ∧ pipeline env "feature-extraction" "Xenova/all-MiniLM-L6-v2" = Throw e)
     ∨ (∃ emb, embedder st' = Some emb
               ∧ (run emb text = Throw e
                  ∨ ∃ out, run emb text = Ok out ∧ vectorOf out = Throw e))).
Proof.
  unfold embedText, initializeEmbedder. run.
  destruct (embedder st) as [emb|] eqn:Hemb.
  - cbn [embedder]. rewrite Hemb.
    destruct (run emb text) as [out|e1] eqn:Hrun;
      [destruct (vectorOf out) as [v|e1] eqn:Hv;
         [destruct (length v =? 384)%nat; discriminate|]|];
      intros [= <- <-]; (split; [by eexists|]); right; exists emb;
      (split; [exact Hemb|]); eauto.
  - destruct (pipeline env _ _) as [emb|e1] eqn:Hpipe.
    + cbn [embedder record set_embedder].
      destruct (run emb text) as [out|e2] eqn:Hrun;
        [destruct (vectorOf out) as [v|e2] eqn:Hv;
           [destruct (length v =? 384)%nat; discriminate|]|];
        intros [= <- <-]; (split; [by eexists|]); right; exists emb;
        (split; [reflexivity|]); eauto.
    + intros [= <- <-]. split; [by eexists|]. left. done.
Qed.

Lemma embedding_failure_is_logged_and_rethrown_witness :
  ∃ tr0, trace (snd (embedText noEncoder "fix null pointer" initial))
         = (tr0 ++ [Warning "Failed to embed text: could not load the model"])%list.
Proof.
  apply (embedding_failure_is_logged_and_rethrown noEncoder "fix null pointer" initial
           (snd (embedText noEncoder "fix null pointer" initial)) modelMissing).
  reflexivity.
Defined.

(** X19.  One retrieval queries the index at most once, as its last call
    to the outside, and only for the top 3 with the metadata included:
    whatever the environment and the state, the calls it adds are calls
    that set up the client and the encoder or run the encoder, followed by
    no query or by the single query [{vector, topK: 3, includeMetadata:
    true}]. *)
Theorem retrieval_queries_once_for_three (env : Env) (diffChunk : string) (st : State) :
  ∃ setup queried,
    callsOf (trace (snd (getRelevantSops env diffChunk st)))
    = (callsOf (trace st) ++ setup ++ queried)%list
    ∧ forallb (λ c, negb (isQuery c)) setup = true
    ∧ (queried = [] ∨ ∃ v, queried = [QueryIndex (topThree v)]).
Proof.
  rewrite getRelevantSops_steps.
  destruct (initializePinecone_calls env st) as (init & Hinit & Hinit_ok).
  destruct (initializePinecone env st) as [[[]|e] st1]; cbn [snd] in Hinit.
  2:{ exists init, []. cbn [snd trace record].
      rewrite callsOf_snoc, Hinit, !app_nil_r. auto. }
  destruct (pineconeIndex st1) as [i|].
  2:{ exists init, []. cbn [snd trace record].
      rewrite callsOf_snoc, Hinit, !app_nil_r. auto. }
  match goal with
  | |- context [embedText env diffChunk ?s] =>
      destruct (embedText_calls env diffChunk s) as (emb & Hemb & Hemb_ok);
      destruct (embedText env diffChunk s) as [[v|e] st2]
  end; cbn [snd trace record] in Hemb; rewrite callsOf_snoc, app_nil_r, Hinit in Hemb.
  2:{ exists (init ++ emb)%list, []. cbn [snd trace record].
      rewrite callsOf_snoc, Hemb, !app_nil_r, app_assoc, forallb_app, Hinit_ok, Hemb_ok.
      auto. }
  cbv zeta. exists (init ++ emb)%list, [QueryIndex (topThree v)].
  rewrite forallb_app, Hinit_ok, Hemb_ok.
  split; [|split; [reflexivity|right; by exists v]].
  destruct (query i (topThree v)) as [resp|e];
    [destruct (matches resp) as [[|m ms]|]|];
    cbn [snd trace record]; rewrite !callsOf_snoc, Hemb, !app_nil_r, !app_assoc;
    reflexivity.
Qed.

(** X20.  [formatSopsForPrompt] returns the empty string for the empty list
    only: a list with at least one SOP always yields a block, whatever the
    SOPs hold. *)
Theorem format_is_empty_only_for_no_sops (sops : list SOP) :
  formatSopsForPrompt sops = "" ↔ sops = [].
Proof.
  split; [|by intros ->].
  destruct sops as [|sop sops]; [done|].
  unfold formatSopsForPrompt. cbn [length Nat.eqb]. unfold nl at 1.
  rewrite append_cons. discriminate.
Qed.

(** X21.  A query that finds nothing is not a failure: when the steps
    before it succeed and the answer of the index has no [matches] field or
    an empty one, the retrieval returns the empty list and its last line is
    the information that no SOP was found, not a warning. *)
Theorem no_match_is_reported_as_information (env : Env) (diffChunk : string)
    (st st1 st2 : State) (i : Index) (v : list number) (resp : QueryResponse) :
  initializePinecone env st = (Ok tt, st1) →
  pineconeIndex st1 = Some i →
  embedText env diffChunk
    (record (Info ("Embedding diff chunk (" +:+ pretty (String.length diffChunk)
                   +:+ " characters)")) st1) = (Ok v, st2) →
  query i (topThree v) = Ok resp →
  matches resp = None ∨ matches resp = Some [] →
  ∃ st' tr0,
    getRelevantSops env diffChunk st = (Ok [], st')
    ∧ trace st' = (tr0 ++ [Info "No relevant SOPs found for this diff chunk"])%list.
Proof.
  intros Hinit Hi Hembed Hquery Hnone.
  rewrite getRelevantSops_steps, Hinit, Hi, Hembed. cbv zeta. rewrite Hquery.
  destruct Hnone as [-> | ->]; eexists _, _; (split; [reflexivity|reflexivity]).
Qed.

Lemma no_match_is_reported_as_information_witness :
  ∃ st' tr0,
    getRelevantSops {| getInput := inputs "pc-key" host "";
                       pipeline := λ _ _, Ok encoder;
                       newPinecone := λ _, Ok (clientOf (seeded [])) |}
      "fix null pointer" initial = (Ok [], st')
    ∧ trace st' = (tr0 ++ [Info "No relevant SOPs found for this diff chunk"])%list.
Proof.
  eapply (no_match_is_reported_as_information _ "fix null pointer" initial _ _
            (seeded []) (replicate 384 (Num (1 # 20) eq_refl)) {| matches := Some [] |}).
  - vm_compute. reflexivity.
  - reflexivity.
  - vm_compute. reflexivity.
  - reflexivity.
  - by right.
Defined.

(** X22.  A retrieval whose steps succeed returns one SOP for every match
    of the answer, in the order of the answer: the list is not cut, so its
    length is the number of matches the index returned. *)
Theorem retrieval_returns_every_match (env : Env) (diffChunk : string)
    (st st1 st2 : State) (i : Index) (v : list number) (resp : QueryResponse)
    (ms : list ScoredRecord) :
  initializePinecone env st = (Ok tt, st1) →
  pineconeIndex st1 = Some i →
  embedText env diffChunk
    (record (Info ("Embedding diff chunk (" +:+ pretty (String.length diffChunk)
                   +:+ " characters)")) st1) = (Ok v, st2) →
  query i (topThree v) = Ok resp →
  matches resp = Some ms →
  ∃ st',
    getRelevantSops env diffChunk st = (Ok (map sopOfMatch ms), st')
    ∧ length (map sopOfMatch ms) = length ms
    ∧ map id (map sopOfMatch ms) = map (λ m, Some (match_id m)) ms
    ∧ map score (map sopOfMatch ms) = map match_score ms.
Proof.
  intros Hinit Hi Hembed Hquery Hms.
  rewrite getRelevantSops_steps, Hinit, Hi, Hembed. cbv zeta. rewrite Hquery, Hms.
  destruct ms as [|m ms]; eexists; (split; [reflexivity|]);
    rewrite length_map, !map_map; done.
Qed.

Lemma retrieval_returns_every_match_witness :
  ∃ st',
    getRelevantSops healthy "fix null pointer" initial
    = (Ok (map sopOfMatch (take 3 candidates)), st')
    ∧ length (map sopOfMatch (take 3 candidates)) = 3%nat.
Proof.
  destruct (retrieval_returns_every_match healthy "fix null pointer" initial
              (snd (initializePinecone healthy initial))
              (snd (embedText healthy "fix null pointer"
                      (record (Info "Embedding diff chunk (16 characters)")
                         (snd (initializePinecone healthy initial)))))
              (seeded candidates) (replicate 384 (Num (1 # 20) eq_refl))
              {| matches := Some (take 3 candidates) |} (take 3 candidates))
    as (st' & Hget & Hlen & _).
  - vm_compute. reflexivity.
  - reflexivity.
  - vm_compute. reflexivity.
  - reflexivity.
  - reflexivity.
  - exists st'. split; [exact Hget|reflexivity].
Defined.

End RetrieverExtras.

(** ** The definitions at work *)

Section Scenarios.
Import Bot BotExamples SopRetriever SopExamples.

(** [invoke("Explain X", schema)] where the service answers with the tool
    input [{"a":1}]. *)
Example chat_tool_scenario :
  fst (chat (botOf (answering [tool (DObj [("a", DNum 1)])]) false 0)
         runtime "Explain X" (Some schema) [])
  = Ok ("{" +:+ dquote +:+ "a" +:+ dquote +:+ ":1}", mkIds (Some "req-1") None).
Proof. vm_compute. reflexivity. Qed.

(** The empty message is answered without a send. *)
Example chat_empty_message :
  chat (botOf (answering [TextMember "unused"]) true 3) runtime "" (Some schema) []
  = (Ok ("", mkIds None None), []).
Proof. reflexivity. Qed.

(** Two failed sends, then an answer: three sends in all. *)
Example chat_retries :
  let out := chat (botOf (flaky [TextMember "fine."]) false 3) runtime "Explain X" None [] in
  fst out = Ok ("fine.", mkIds (Some "req-1") None)
  ∧ length (List.filter (λ ev, match ev with Call _ => true | _ => false end) (snd out))
    = 3%nat.
Proof. vm_compute. split; reflexivity. Qed.

(** With one retry the same service is given up on after two sends. *)
Example chat_retries_exhausted :
  let out := chat (botOf (flaky [TextMember "fine."]) false 1) runtime "Explain X" None [] in
  fst out = Ok ("", mkIds None None)
  ∧ length (List.filter (λ ev, match ev with Call _ => true | _ => false end) (snd out))
    = 2%nat.
Proof. vm_compute. split; reflexivity. Qed.

(** A seeded index with five candidates: the three best, best first. *)
Example retrieve_top_three :
  fst (getRelevantSops healthy "fix null pointer" initial)
  = Ok (map sopOfMatch (take 3 candidates)).
Proof. vm_compute. reflexivity. Qed.

(** The index name is the part of the host before [.svc.]. *)
Example index_name_from_host :
  resolveIndexName healthy host = "sop-embeddings-2vib48a".
Proof. reflexivity. Qed.

Example index_name_default :
  resolveIndexName {| getInput := inputs "pc-key" "localhost" "";
                      pipeline := λ _ _, Ok encoder;
                      newPinecone := λ _, Ok (clientOf offline) |} "localhost"
  = "sop-embeddings".
Proof. reflexivity. Qed.

Example toFixed_rounds :
  toFixed (Num (12345 # 10000) eq_refl) 3 = "1.235"
  ∧ toFixed (Num (-(4 # 10000)) eq_refl) 3 = "-0.000"
  ∧ toFixed (Num 0 eq_refl) 3 = "0.000" ∧ toFixed (Num (7 # 2) eq_refl) 0 = "4"
  ∧ toFixed (Huge true "1e+21") 3 = "-1e+21" ∧ toFixed NaN 3 = "NaN".
Proof. vm_compute. repeat split; reflexivity. Qed.

Example format_two :
  formatSopsForPrompt
    [ {| text := "Check every pointer."; id := Some "sop-7";
         score := Some (Num (93 # 100) eq_refl); metadata := None |};
      {| text := "Prefer early returns."; id := None; score := None; metadata := None |} ]
  = nl +:+ "<relevant_sops>" +:+ nl
    +:+ "### Relevant SOP 1 (ID: sop-7) (relevance: 0.930)" +:+ nl +:+ nl
    +:+ "Check every pointer." +:+ nl +:+ nl
    +:+ "### Relevant SOP 2" +:+ nl +:+ nl +:+ "Prefer early returns."
    +:+ nl +:+ "</relevant_sops>" +:+ nl.
Proof. vm_compute. reflexivity. Qed.

End Scenarios.
